(** * The notify worker of juju-core and the logger API end point

    A shallow embedding of [worker.NewNotifyWorker] and its control loop
    (package worker), of the handler and watcher doubles used by its test
    suite (package worker_test), and of [LoggingConfig] and
    [WatchLoggingConfig] (package logger).

    The worker runs one goroutine next to any number of observer
    goroutines; the only state they share is the tomb.  The embedding is
    an executable transition function [worker.step] over an explicit
    schedule.  Every element of the schedule is one atomic move: the
    worker goroutine executes its next statement ([Run]), its select
    receives a notification ([Notify]; a closed [Changes] channel
    delivers like an open one, the loop does not look at the second
    value of the receive) or sees the tomb dying ([SeeDying]), or an
    observer calls [Kill] ([CallKill]).  An event that cannot happen
    where the goroutine stands (a receive outside the select, the dying
    case while the tomb is alive) changes nothing.  A run whose schedule
    ends inside the select is a run still blocked there. *)

From Stdlib Require Import List String Bool Arith Lia.
From stdpp Require Import list.
Import ListNotations.
Open Scope list_scope.

(** ** Errors *)

(** A Go [error] value.  [None : option error] is the nil error.
    [ErrDying] is the exported sentinel of the tomb package; [Errorf msg] is
    an error built by [fmt.Errorf] or [errors.New]. *)
Inductive error : Type :=
| ErrDying
| Errorf (msg : string).

(** A genuine failure: a non-nil error other than the dying sentinel. *)
Definition genuine (r : option error) : bool :=
  match r with
  | Some (Errorf _) => true
  | Some ErrDying | None => false
  end.

(** ** package tomb *)

Module tomb.

(** Modelled from the spec: the package launchpad.net/tomb (type [Tomb],
    [Kill], [Done], [Dying], [Wait]) is imported by the worker but is not
    among the sources.  The spec calls it the DeathRecorder: a cell that
    is alive, then dying, then dead; "once a non-sentinel, non-nil error
    is latched, no later latch attempt changes it; a sentinel dying
    marker may be silently upgraded to a real error, but a real error is
    never downgraded or overwritten".  [dying] and [dead] say whether the
    channels of the same names are closed; [reason] is the latched
    error, nil until a genuine one arrives. *)
Record Tomb : Type := mkTomb {
  dying : bool;
  dead : bool;
  reason : option error
}.

(** The zero value of the struct: alive, nothing latched. *)
Definition zero : Tomb := mkTomb false false None.

(** Modelled from the spec: [t.Kill(r)] requests shutdown and latches [r]
    under the rule quoted above: [latch r latched] is the reason held
    after the attempt.  A nil or sentinel [r] never replaces anything. *)
Definition latch (r latched : option error) : option error :=
  if genuine latched then latched
  else if genuine r then r
  else latched.

Definition Kill (r : option error) (t : Tomb) : Tomb :=
  mkTomb true (dead t) (latch r (reason t)).

(** Modelled from the spec: [t.Done()] moves the cell to dead ("latch the
    final terminal reason, transition it to dead"). *)
Definition Done (t : Tomb) : Tomb := mkTomb true true (reason t).

(** [<-t.Dying()] can proceed exactly when the dying channel is closed. *)
Definition Dying (t : Tomb) : bool := dying t.

(** Modelled from the spec: [t.Wait()] "blocks the calling thread until
    the DeathRecorder reaches dead; returns the latched terminal error".
    [None] says that the caller is still blocked. *)
Definition Wait (t : Tomb) : option (option error) :=
  if dead t then Some (reason t) else None.

End tomb.

(** ** package state: the watcher interface *)

Module state.

(** [state.NotifyWatcher], as far as the worker uses it.  [Changes()] is
    a channel: what arrives on it is part of the schedule below.  [Stop]
    gives the error that the one call of [w.Stop()] returns. *)
Class NotifyWatcher (W : Type) : Type := {
  Stop : W -> option error
}.

End state.

(** ** package watcher *)

Module watcher.

(** Modelled from the spec: the helper [watcher.Stop(w, &tomb)] of
    state/watcher is called by the loop but is not among the sources.
    It receives the watcher and the tomb and nothing else.  Spec, 4.1
    step 4: "If the watcher's release reports an error, it becomes the
    terminal error unless a real (non-sentinel) terminal error was
    already latched": the release error is handed to the latch. *)
Definition Stop {W} `{state.NotifyWatcher W} (w : W) (t : tomb.Tomb)
  : tomb.Tomb :=
  match state.Stop w with
  | Some err => tomb.Kill (Some err) t
  | None => t
  end.

End watcher.

(** ** package worker *)

Module worker.

(** [WatchHandler]: the business logic plugged into the worker.  A
    handler is a Go object with state of its own, so every method
    returns the handler's next state as well. *)
Class WatchHandler (W H : Type) : Type := {
  SetUp : H -> option W * option error * H;
  TearDown : H -> H;
  Handle : H -> option error * H
}.

(** The calls the worker makes on its collaborators, in the order in
    which they are made (a ghost log, not part of the Go state). *)
Inductive action : Type :=
| ActSetUp
| ActHandle
| ActWatcherStop
| ActTearDown.

(** One atomic move of the system. *)
Inductive event : Type :=
| Run        (* the worker goroutine executes its next statement *)
| Notify     (* the select receives from [w.Changes()] *)
| SeeDying   (* the select receives from [nw.tomb.Dying()] *)
| CallKill.  (* an observer goroutine calls [nw.Kill()] *)

Section Worker.

Context {W H : Type}.
Context `{NW : state.NotifyWatcher W} `{WH : WatchHandler W H}.

(** [type notifyWorker struct { tomb tomb.Tomb; handler WatchHandler }] *)
Record notifyWorker : Type := mkWorker {
  tomb : tomb.Tomb;
  handler : H
}.

(** A function registered with [defer] inside [loop]. *)
Inductive deferred : Type :=
| DeferTearDown                (* line 78 *)
| DeferWatcherStop (w : W).    (* line 90 *)

(** Where the worker goroutine stands. *)
Inductive pc : Type :=
| Spawned                      (* [go func()] started, [loop] not entered *)
| Selecting (w : W)            (* blocked in the select of line 92 *)
| Returning (ret : error) (defers : list deferred)
                               (* a [return ret] of [loop] was executed;
                                  [defers] are still to run, last
                                  registered first *)
| Finishing                    (* line 53 done, deferred [Done] is next *)
| Exited.                      (* the goroutine is gone *)

Record goroutine : Type := mkG {
  nw : notifyWorker;
  at_pc : pc;
  calls : list action
}.

Definition set_tomb (f : tomb.Tomb -> tomb.Tomb) (g : goroutine)
  : goroutine :=
  mkG (mkWorker (f (tomb (nw g))) (handler (nw g))) (at_pc g) (calls g).

(** [func (nw *notifyWorker) Kill()], line 59. *)
Definition Kill (g : goroutine) : goroutine :=
  set_tomb (tomb.Kill None) g.

(** [func (nw *notifyWorker) Wait() error], line 70. *)
Definition Wait (g : goroutine) : option (option error) :=
  tomb.Wait (tomb (nw g)).

(** [loop], lines 76 to 90: register [TearDown], call [SetUp], and
    either return or adopt the watcher and register its release. *)
Definition loop_enter (g : goroutine) : goroutine :=
  let t := tomb (nw g) in
  let '(w, err, h) := SetUp (handler (nw g)) in
  let log := calls g ++ [ActSetUp] in
  match err, w with
  | Some e, Some w' =>
      (* [w.Stop()]: line 83, the error is dropped *)
      let _ := state.Stop w' in
      mkG (mkWorker t h) (Returning e [DeferTearDown])
          (log ++ [ActWatcherStop])
  | Some e, None =>
      mkG (mkWorker t h) (Returning e [DeferTearDown]) log
  | None, None =>
      mkG (mkWorker t h)
          (Returning (Errorf "SetUp returned a nil Watcher"%string)
                     [DeferTearDown])
          log
  | None, Some w' =>
      mkG (mkWorker t h) (Selecting w') log
  end.

(** [loop], line 95 to 98: a value arrived on [w.Changes()]. *)
Definition loop_changes (w : W) (g : goroutine) : goroutine :=
  let t := tomb (nw g) in
  let '(err, h) := Handle (handler (nw g)) in
  let log := calls g ++ [ActHandle] in
  match err with
  | Some e =>
      mkG (mkWorker t h)
          (Returning e [DeferWatcherStop w; DeferTearDown]) log
  | None => mkG (mkWorker t h) (Selecting w) log
  end.

(** [loop], line 93 and 94: the dying case of the select.  It can be
    taken only when the channel is closed. *)
Definition loop_dying (w : W) (g : goroutine) : goroutine :=
  if tomb.Dying (tomb (nw g))
  then mkG (nw g)
           (Returning ErrDying [DeferWatcherStop w; DeferTearDown])
           (calls g)
  else g.

(** One deferred call of [loop]. *)
Definition run_deferred (d : deferred) (g : goroutine)
  : notifyWorker * list action :=
  match d with
  | DeferWatcherStop w =>
      (mkWorker (watcher.Stop w (tomb (nw g))) (handler (nw g)),
       calls g ++ [ActWatcherStop])
  | DeferTearDown =>
      (mkWorker (tomb (nw g)) (TearDown (handler (nw g))),
       calls g ++ [ActTearDown])
  end.

(** The goroutine started by [NewNotifyWorker], lines 51 to 54:
    [defer nw.tomb.Done(); nw.tomb.Kill(nw.loop())]. *)
Definition step (ev : event) (g : goroutine) : goroutine :=
  match ev, at_pc g with
  | CallKill, _ => Kill g
  | Run, Spawned => loop_enter g
  | Notify, Selecting w => loop_changes w g
  | SeeDying, Selecting w => loop_dying w g
  | Run, Returning ret (d :: ds) =>
      let '(n, log) := run_deferred d g in
      mkG n (Returning ret ds) log
  | Run, Returning ret [] =>
      (* [loop] has returned [ret]: line 53 *)
      mkG (mkWorker (tomb.Kill (Some ret) (tomb (nw g)))
                    (handler (nw g)))
          Finishing (calls g)
  | Run, Finishing =>
      (* the deferred [nw.tomb.Done()]: line 52 *)
      mkG (mkWorker (tomb.Done (tomb (nw g))) (handler (nw g)))
          Exited (calls g)
  | _, _ => g
  end.

Definition run (evs : list event) (g : goroutine) : goroutine :=
  fold_left (fun g ev => step ev g) evs g.

(** [func NewNotifyWorker(handler WatchHandler) NotifyWorker], line 47. *)
Definition NewNotifyWorker (h : H) : goroutine :=
  mkG (mkWorker tomb.zero h) Spawned [].

(** [func (nw *notifyWorker) Stop() error], line 64: the two
    statements of the body, with the moves [evs] of the rest of the
    system while the caller is blocked in [tomb.Wait]. *)
Definition Stop (evs : list event) (g : goroutine)
  : option (option error) * goroutine :=
  let g1 := set_tomb (tomb.Kill None) g in
  let g2 := run evs g1 in
  (tomb.Wait (tomb (nw g2)), g2).

(** *** Vocabulary of the statements *)

(** The handler after [SetUp] left it as [h1] and [Handle] returned
    [n] times, and what call number [n + 1] of [Handle] returns. *)
Definition handled (n : nat) (h1 : H) : H :=
  Nat.iter n (fun h => snd (Handle h)) h1.

Definition verdict (n : nat) (h1 : H) : option error :=
  fst (Handle (handled n h1)).

(** The first [n] calls of [Handle] return nil. *)
Definition quiet (n : nat) (h1 : H) : Prop :=
  forall i, i < n -> verdict i h1 = None.

Definition act_of (d : deferred) : action :=
  match d with
  | DeferTearDown => ActTearDown
  | DeferWatcherStop _ => ActWatcherStop
  end.

(** What running the deferred calls [ds] and then line 53 makes of
    the handler and of the latched reason. *)
Fixpoint unwound_handler (ds : list deferred) (h : H) : H :=
  match ds with
  | [] => h
  | DeferTearDown :: ds' => unwound_handler ds' (TearDown h)
  | DeferWatcherStop _ :: ds' => unwound_handler ds' h
  end.

Fixpoint unwound_reason (ret : error) (ds : list deferred)
  (latched : option error) : option error :=
  match ds with
  | [] => tomb.latch (Some ret) latched
  | DeferTearDown :: ds' => unwound_reason ret ds' latched
  | DeferWatcherStop w :: ds' =>
      unwound_reason ret ds' (tomb.latch (state.Stop w) latched)
  end.

(** Once [loop] has executed a [return], the log, the handler and the
    reason with which the goroutine will exit are settled. *)
Definition settled (g : goroutine)
  : option (list action * H * option error) :=
  match at_pc g with
  | Spawned | Selecting _ => None
  | Returning ret ds =>
      Some (calls g ++ map act_of ds,
            unwound_handler ds (handler (nw g)),
            unwound_reason ret ds (tomb.reason (tomb (nw g))))
  | Finishing | Exited =>
      Some (calls g, handler (nw g), tomb.reason (tomb (nw g)))
  end.

Definition is_exited (p : pc) : bool :=
  match p with Exited => true | _ => false end.

(** The moves the goroutine needs to get from [p] to [Exited] once it
    has left the select. *)
Definition moves_left (p : pc) : nat :=
  match p with
  | Returning _ ds => length ds + 2
  | Finishing => 1
  | _ => 0
  end.

(** How [loop] can come to its [return]: the returned error, the log
    up to and without [TearDown], the handler, and the reason latched
    by then. *)
Inductive Left (h0 : H)
  : error -> list action -> H -> option error -> Prop :=
| Left_setup_error ow e h1 :
    SetUp h0 = (ow, Some e, h1) ->
    Left h0 e
         (ActSetUp :: match ow with
                      | Some _ => [ActWatcherStop]
                      | None => []
                      end)
         h1 None
| Left_nil_watcher h1 :
    SetUp h0 = (None, None, h1) ->
    Left h0 (Errorf "SetUp returned a nil Watcher"%string)
         [ActSetUp] h1 None
| Left_dying w h1 n :
    SetUp h0 = (Some w, None, h1) ->
    quiet n h1 ->
    Left h0 ErrDying
         (ActSetUp :: replicate n ActHandle ++ [ActWatcherStop])
         (handled n h1) (tomb.latch (state.Stop w) None)
| Left_handle_error w h1 n e :
    SetUp h0 = (Some w, None, h1) ->
    quiet n h1 ->
    verdict n h1 = Some e ->
    Left h0 e
         (ActSetUp :: replicate (S n) ActHandle ++ [ActWatcherStop])
         (handled (S n) h1) (tomb.latch (state.Stop w) None).

(** The invariant of the worker started on the handler [h0]. *)
Definition Inv (h0 : H) (g : goroutine) : Prop :=
  tomb.dead (tomb (nw g)) = is_exited (at_pc g) /\
  match at_pc g with
  | Spawned =>
      handler (nw g) = h0 /\ calls g = [] /\
      tomb.reason (tomb (nw g)) = None
  | Selecting w =>
      exists h1 n,
        SetUp h0 = (Some w, None, h1) /\ quiet n h1 /\
        handler (nw g) = handled n h1 /\
        calls g = ActSetUp :: replicate n ActHandle /\
        tomb.reason (tomb (nw g)) = None
  | _ =>
      exists ret log h r,
        Left h0 ret log h r /\
        settled g = Some (log ++ [ActTearDown], TearDown h,
                          tomb.latch (Some ret) r)
  end.

Definition event_eqb (a b : event) : bool :=
  match a, b with
  | Run, Run | Notify, Notify | SeeDying, SeeDying
  | CallKill, CallKill => true
  | _, _ => false
  end.

(** How often [e] occurs in a schedule. *)
Fixpoint count (e : event) (evs : list event) : nat :=
  match evs with
  | [] => 0
  | x :: rest => (if event_eqb x e then 1 else 0) + count e rest
  end.

(** [Stop] in the words of the spec: "Kill() followed by Wait()". *)
Definition Kill_then_Wait (evs : list event) (g : goroutine)
  : option (option error) * goroutine :=
  let g1 := Kill g in
  let g2 := run evs g1 in
  (Wait g2, g2).

End Worker.

End worker.

(** ** package worker_test: the doubles of the test suite *)

Module worker_test.

(** [type TestWatcher struct]: [Stop] returns [stopError].  The channel
    [out] is the schedule's business; the flag [stopped] is the
    [ActWatcherStop] entry of the log. *)
Record TestWatcher : Type := mkTestWatcher {
  stopError : option error
}.

#[global] Instance TestWatcher_NotifyWatcher
  : state.NotifyWatcher TestWatcher :=
  {| state.Stop := stopError |}.

(** [type ActionsHandler struct].  The channel [handled] only tells the
    test that [Handle] ran, and is left out. *)
Record ActionsHandler : Type := mkActionsHandler {
  actions : list string;
  setupError : option error;
  handlerError : option error;
  watcher : option TestWatcher
}.

(** [a.actions = append(a.actions, what)] *)
Definition record (what : string) (a : ActionsHandler) : ActionsHandler :=
  mkActionsHandler (actions a ++ [what]) (setupError a) (handlerError a)
                   (watcher a).

#[global] Instance ActionsHandler_WatchHandler
  : worker.WatchHandler TestWatcher ActionsHandler :=
  {| worker.SetUp a :=
       match watcher a with
       | None => (None, setupError a, record "setup" a)
       | Some w => (Some w, setupError a, record "setup" a)
       end;
     worker.TearDown a := record "teardown" a;
     worker.Handle a := (handlerError a, record "handler" a) |}.

(** The handler built by [SetUpTest]. *)
Definition actor : ActionsHandler :=
  mkActionsHandler [] None None (Some (mkTestWatcher None)).

End worker_test.

(** ** package params *)

Module params.

(** [params.Entity] *)
Record Entity : Type := mkEntity { Tag : string }.

(** [params.StringResult], over the type of [*params.Error]. *)
Record StringResult (E : Type) : Type := mkStringResult {
  Error : option E;
  Result : string
}.
Arguments mkStringResult {E} _ _.
Arguments Error {E} _.
Arguments Result {E} _.

End params.

(** ** package logger *)

Module logger.

Section LoggerAPI.

(** What [LoggingConfig] uses and the sources do not hold: the type
    behind the pointer [*config.Config] with its method
    [LoggingConfig] (called on the pointer, nil included; [None] when
    the call panics), [*params.Error] with [common.ServerError], and
    the constant [common.ErrPerm]. *)
Variable Config : Type.
Variable ParamsError : Type.
Variable Config_LoggingConfig : option Config -> option string.
Variable ServerError : option error -> option ParamsError.
Variable ErrPerm : error.

(** [type loggerAPI struct], by what the method reads of it: the
    answer of [api.state.EnvironConfig()] and
    [api.authorizer.AuthOwner]. *)
Record loggerAPI : Type := mkLoggerAPI {
  EnvironConfig : option Config * option error;
  AuthOwner : string -> bool
}.

Definition set_Result (v : string) (r : params.StringResult ParamsError)
  : params.StringResult ParamsError :=
  params.mkStringResult (params.Error r) v.

Definition set_Error (e : option ParamsError)
  (r : params.StringResult ParamsError)
  : params.StringResult ParamsError :=
  params.mkStringResult e (params.Result r).

(** The body of the [for] of line 71, at index [i].  [None] when it
    panics. *)
Definition LoggingConfig_body (api : loggerAPI)
  (config : option Config) (configErr : option error)
  (i : nat) (entity : params.Entity)
  (results : list (params.StringResult ParamsError))
  : option (list (params.StringResult ParamsError)) :=
  let err := Some ErrPerm in
  '(results, err) ←
    (if AuthOwner api (params.Tag entity) then
       match configErr with
       | Some _ =>
           v ← Config_LoggingConfig config;
           Some (alter (set_Result v) i results, None)
       | None => Some (results, configErr)
       end
     else Some (results, err));
  Some (alter (set_Error (ServerError err)) i results).

Fixpoint LoggingConfig_for (api : loggerAPI)
  (config : option Config) (configErr : option error)
  (i : nat) (entities : list params.Entity)
  (results : list (params.StringResult ParamsError))
  : option (list (params.StringResult ParamsError)) :=
  match entities with
  | [] => Some results
  | entity :: rest =>
      results ← LoggingConfig_body api config configErr i entity results;
      LoggingConfig_for api config configErr (S i) rest results
  end.

(** [func (api *loggerAPI) LoggingConfig(arg params.Entities)], line 65. *)
Definition LoggingConfig (api : loggerAPI) (arg : list params.Entity)
  : option (list (params.StringResult ParamsError)) :=
  let results :=
    replicate (length arg) (params.mkStringResult None EmptyString) in
  let '(config, configErr) := EnvironConfig api in
  LoggingConfig_for api config configErr 0 arg results.

(** What one turn of the [for] does to the slot of [entity], when it
    does not panic (vocabulary of the statements). *)
Definition slot (api : loggerAPI)
  (config : option Config) (configErr : option error)
  (entity : params.Entity)
  : option (params.StringResult ParamsError
            -> params.StringResult ParamsError) :=
  if AuthOwner api (params.Tag entity) then
    match configErr with
    | Some _ =>
        v ← Config_LoggingConfig config;
        Some (fun r => set_Error (ServerError None) (set_Result v r))
    | None => Some (set_Error (ServerError None))
    end
  else Some (set_Error (ServerError (Some ErrPerm))).

End LoggerAPI.

Arguments mkLoggerAPI {Config} _ _.
Arguments EnvironConfig {Config} _.
Arguments AuthOwner {Config} _ _.

End logger.

(** ** More of package worker_test, and words for more statements *)

Module worker_words.

Section Words.

Context {W H : Type}.
Context `{NW : state.NotifyWatcher W} `{WH : worker.WatchHandler W H}.

(** The goroutine has not left the select (or not reached it) and no
    shutdown was requested. *)
Definition waiting (g : @worker.goroutine W H) : Prop :=
  tomb.dying (worker.tomb (worker.nw g)) = false /\
  (worker.at_pc g = worker.Spawned \/
   exists w, worker.at_pc g = worker.Selecting w).

End Words.

(** What [ActionsHandler] appends to [a.actions] when the worker makes
    the call; the release of the watcher is not a call on the handler. *)
Definition name_of (a : worker.action) : option string :=
  match a with
  | worker.ActSetUp => Some "setup"%string
  | worker.ActHandle => Some "handler"%string
  | worker.ActTearDown => Some "teardown"%string
  | worker.ActWatcherStop => None
  end.

Definition action_eqb (a b : worker.action) : bool :=
  match a, b with
  | worker.ActSetUp, worker.ActSetUp
  | worker.ActHandle, worker.ActHandle
  | worker.ActWatcherStop, worker.ActWatcherStop
  | worker.ActTearDown, worker.ActTearDown => true
  | _, _ => false
  end.

(** How often the call [a] occurs in a log. *)
Fixpoint times (a : worker.action) (log : list worker.action) : nat :=
  match log with
  | [] => 0
  | x :: rest => (if action_eqb x a then 1 else 0) + times a rest
  end.

End worker_words.

(** ** package logger: [WatchLoggingConfig] *)

Module logger_watch.

(** [params.NotifyWatchResult], over the type of [*params.Error]. *)
Record NotifyWatchResult (E : Type) : Type := mkNotifyWatchResult {
  NotifyWatcherId : string;
  Error : option E
}.
Arguments mkNotifyWatchResult {E} _ _.
Arguments NotifyWatcherId {E} _.
Arguments Error {E} _.

Section WatchAPI.

(** What [WatchLoggingConfig] uses and the sources do not hold.  [St] is
    [*state.State] as far as starting watchers goes, with
    [WatchForEnvironConfigChanges], which gives a new watcher at every
    call; [initial_event watch] is the [ok] of the receive
    [<-watch.Changes()] of line 52; [Res] is [*common.Resources] with
    [Register], which gives the id under which it stored the watcher;
    [MustErr] is [watcher.MustErr] ([None] when it panics). *)
Variable St Wt Res ParamsError : Type.
Variable WatchForEnvironConfigChanges : St -> Wt * St.
Variable initial_event : Wt -> bool.
Variable Register : Res -> Wt -> string * Res.
Variable MustErr : Wt -> option error.
Variable ServerError : option error -> option ParamsError.
Variable ErrPerm : error.
Variable AuthOwner : string -> bool.

Definition set_NotifyWatcherId (id : string)
  (r : NotifyWatchResult ParamsError) : NotifyWatchResult ParamsError :=
  mkNotifyWatchResult id (Error r).

Definition set_Error (e : option ParamsError)
  (r : NotifyWatchResult ParamsError) : NotifyWatchResult ParamsError :=
  mkNotifyWatchResult (NotifyWatcherId r) e.

(** The body of the [for] of line 45, at index [i], on the state, the
    resources and the results so far.  [None] when it panics. *)
Definition WatchLoggingConfig_body (i : nat) (entity : params.Entity)
  (now : St * Res * list (NotifyWatchResult ParamsError))
  : option (St * Res * list (NotifyWatchResult ParamsError)) :=
  let '(st, res, result) := now in
  let err := Some ErrPerm in
  '(st, res, result, err) ←
    (if AuthOwner (params.Tag entity) then
       let '(watch, st) := WatchForEnvironConfigChanges st in
       if initial_event watch then
         let '(id, res) := Register res watch in
         Some (st, res, alter (set_NotifyWatcherId id) i result, None)
       else
         e ← MustErr watch;
         Some (st, res, result, Some e)
     else Some (st, res, result, err));
  Some (st, res, alter (set_Error (ServerError err)) i result).

Fixpoint WatchLoggingConfig_for (i : nat) (entities : list params.Entity)
  (now : St * Res * list (NotifyWatchResult ParamsError))
  : option (St * Res * list (NotifyWatchResult ParamsError)) :=
  match entities with
  | [] => Some now
  | entity :: rest =>
      now ← WatchLoggingConfig_body i entity now;
      WatchLoggingConfig_for (S i) rest now
  end.

(** [func (api *loggerAPI) WatchLoggingConfig(arg params.Entities)],
    line 43: the results, with the state and the resources as the call
    leaves them. *)
Definition WatchLoggingConfig (st : St) (res : Res)
  (arg : list params.Entity)
  : option (St * Res * list (NotifyWatchResult ParamsError)) :=
  let result :=
    replicate (length arg) (mkNotifyWatchResult EmptyString None) in
  WatchLoggingConfig_for 0 arg (st, res, result).

(** What one turn of the [for] can do to the slot of [entity]
    (vocabulary of the statements): refuse, register a watcher that
    delivered its initial event, or report the error of a watcher that
    did not. *)
Inductive Slot (entity : params.Entity)
  : (NotifyWatchResult ParamsError -> NotifyWatchResult ParamsError)
    -> Prop :=
| Slot_refused :
    AuthOwner (params.Tag entity) = false ->
    Slot entity (set_Error (ServerError (Some ErrPerm)))
| Slot_registered st watch st' res id res' :
    AuthOwner (params.Tag entity) = true ->
    WatchForEnvironConfigChanges st = (watch, st') ->
    initial_event watch = true ->
    Register res watch = (id, res') ->
    Slot entity
         (fun r => set_Error (ServerError None) (set_NotifyWatcherId id r))
| Slot_failed st watch st' e :
    AuthOwner (params.Tag entity) = true ->
    WatchForEnvironConfigChanges st = (watch, st') ->
    initial_event watch = false ->
    MustErr watch = Some e ->
    Slot entity (set_Error (ServerError (Some e))).

End WatchAPI.

End logger_watch.

(** ** Handlers, watchers and an API to run the code on *)

Module fixtures.

Import worker_test.

(** Not part of the repository: a handler with a counter, to exercise
    the worker on a [Handle] that fails only after some notifications.
    With [mkDowncount e n r], [SetUp] gives a watcher whose [Stop]
    returns [r], the first [n] calls of [Handle] return nil and count
    down, and the calls after them return [e]. *)
Record Downcount : Type := mkDowncount {
  failure : error;
  remaining : nat;
  release : option error
}.

#[global] Instance Downcount_WatchHandler
  : worker.WatchHandler TestWatcher Downcount :=
  {| worker.SetUp d := (Some (mkTestWatcher (release d)), None, d);
     worker.TearDown d := d;
     worker.Handle d :=
       match remaining d with
       | 0 => (Some (failure d), d)
       | S n => (None, mkDowncount (failure d) n (release d))
       end |}.

(** The errors of the test suite. *)
Definition stopping : error := Errorf "error while stopping watcher".
Definition handling : error := Errorf "my handling error".
Definition special : error := Errorf "my special error".

(** The handlers of [TestWatcherStopFailurePropagates],
    [TestSetupNilWatcherStopsWithTearDown] and
    [TestSetUpFailureStopsWithTearDown] (here with a watcher whose
    release fails as well), and a handler whose [Handle] and whose
    watcher both fail. *)
Definition stop_fails : ActionsHandler :=
  mkActionsHandler [] None None (Some (mkTestWatcher (Some stopping))).
Definition setup_fails : ActionsHandler :=
  mkActionsHandler [] (Some special) None
                   (Some (mkTestWatcher (Some stopping))).
Definition both_fail : ActionsHandler :=
  mkActionsHandler [] None (Some handling)
                   (Some (mkTestWatcher (Some stopping))).

(** A handler whose [SetUp] fails and gives no watcher, and a handler
    whose [Handle] returns the dying sentinel of the tomb. *)
Definition setup_fails_alone : ActionsHandler :=
  mkActionsHandler [] (Some special) None None.
Definition handle_says_dying : Downcount := mkDowncount ErrDying 0 None.

(** A handler whose watcher returns the dying sentinel when released,
    and a handler whose [SetUp] returns a watcher together with the
    sentinel. *)
Definition release_says_dying : ActionsHandler :=
  mkActionsHandler [] None None (Some (mkTestWatcher (Some ErrDying))).
Definition setup_says_dying : ActionsHandler :=
  mkActionsHandler [] (Some ErrDying) None (Some (mkTestWatcher None)).

(** A logger API whose configuration is its logging value, whose
    [ServerError] keeps the error, and whose only owner is
    "machine-0". *)
Definition logging_of (config : option string) : option string := config.
Definition server_error (err : option error) : option error := err.
Definition owner (tag : string) : bool := String.eqb tag "machine-0".
Definition permission_denied : error := Errorf "permission denied".
Definition machines : list params.Entity :=
  [params.mkEntity "machine-1"; params.mkEntity "machine-0"].
Definition api_fetched : logger.loggerAPI string :=
  logger.mkLoggerAPI (Some "<root>=DEBUG"%string, None) owner.
Definition api_failed : logger.loggerAPI string :=
  logger.mkLoggerAPI (Some "<root>=DEBUG"%string, Some (Errorf "not found"))
                     owner.

(** A state that numbers the watchers it starts, of which those with an
    even number deliver their initial event, and resources that list
    the watchers registered and name them "1", "2" and so on. *)
Definition start_watcher (st : nat) : nat * nat := (st, S st).
Definition delivers (watch : nat) : bool := Nat.even watch.
Definition register (res : list nat) (watch : nat) : string * list nat :=
  (String (Ascii.ascii_of_nat (49 + length res)) EmptyString,
   res ++ [watch]).
Definition died_with (watch : nat) : option error :=
  Some (Errorf "watcher died").
Definition agents : list params.Entity :=
  [params.mkEntity "machine-0"; params.mkEntity "machine-1";
   params.mkEntity "machine-0"].

End fixtures.

(** * Facts *)

(** ** The latch *)

Module tomb_facts.

Lemma latch_nil (latched : option error) : tomb.latch None latched = latched.
Proof. unfold tomb.latch. destruct (genuine latched); reflexivity. Qed.

Lemma latch_sentinel (latched : option error) :
  tomb.latch (Some ErrDying) latched = latched.
Proof. unfold tomb.latch. destruct (genuine latched); reflexivity. Qed.

Lemma latch_kept (r latched : option error) :
  genuine latched = true -> tomb.latch r latched = latched.
Proof. unfold tomb.latch. intros ->. reflexivity. Qed.

Lemma latch_upgrade (r latched : option error) :
  genuine latched = false -> genuine r = true -> tomb.latch r latched = r.
Proof. unfold tomb.latch. intros -> ->. reflexivity. Qed.

Lemma latch_first (e : error) :
  genuine (Some e) = true -> tomb.latch (Some e) None = Some e.
Proof. intros He. apply latch_upgrade; [reflexivity | exact He]. Qed.

Lemma Kill_nil_reason (t : tomb.Tomb) :
  tomb.reason (tomb.Kill None t) = tomb.reason t.
Proof. apply latch_nil. Qed.

Lemma Kill_dead (r : option error) (t : tomb.Tomb) :
  tomb.dead (tomb.Kill r t) = tomb.dead t.
Proof. reflexivity. Qed.

Lemma watcher_Stop_reason {W} `{state.NotifyWatcher W} (w : W)
  (t : tomb.Tomb) :
  tomb.reason (watcher.Stop w t)
  = tomb.latch (state.Stop w) (tomb.reason t).
Proof.
  unfold watcher.Stop. destruct (state.Stop w); simpl.
  - reflexivity.
  - symmetry. apply latch_nil.
Qed.

Lemma watcher_Stop_dead {W} `{state.NotifyWatcher W} (w : W)
  (t : tomb.Tomb) :
  tomb.dead (watcher.Stop w t) = tomb.dead t.
Proof. unfold watcher.Stop. destruct (state.Stop w); reflexivity. Qed.

(** The helper [watcher.Stop] is given the watcher and the tomb, not the
    result of [loop].  Whatever it does with them: if it lets the error
    [R] of a release surface after a plain [Kill], as
    [TestWatcherStopFailurePropagates] has it, then a failure [E] latched
    after it on a tomb that an observer has killed meanwhile stays
    hidden behind [R]. *)
Lemma release_latched_before_result
  (stop : option error -> tomb.Tomb -> tomb.Tomb) :
  (forall t R,
      tomb.dying t = true -> tomb.reason t = None ->
      genuine (Some R) = true ->
      tomb.reason (stop (Some R) t) = Some R) ->
  forall t E R,
    tomb.dying t = true -> tomb.reason t = None ->
    genuine (Some R) = true ->
    tomb.reason (tomb.Kill (Some E) (stop (Some R) t)) = Some R.
Proof.
  intros Hstop t E R Hd Hr HR. simpl.
  rewrite (Hstop t R Hd Hr HR). apply latch_kept, HR.
Qed.

End tomb_facts.

(** ** The worker *)

Module worker_facts.

Import worker tomb_facts.

Section WorkerFacts.

Context {W H : Type}.
Context `{NW : state.NotifyWatcher W} `{WH : WatchHandler W H}.

Implicit Types (g : @goroutine W H) (evs : list event) (h : H).

#[local] Arguments handled : simpl never.
#[local] Arguments tomb.latch : simpl never.

Lemma run_app evs1 evs2 g :
  run (evs1 ++ evs2) g = run evs2 (run evs1 g).
Proof. unfold run. apply fold_left_app. Qed.

Lemma run_cons ev evs g : run (ev :: evs) g = run evs (step ev g).
Proof. reflexivity. Qed.


(** *** What is settled stays settled *)

Lemma settled_step ev g x :
  settled g = Some x -> settled (step ev g) = Some x.
Proof.
  destruct g as [[t h] p log]. unfold settled, step. simpl.
  destruct p as [|w|ret [|[|w] ds]| |]; try discriminate;
    destruct ev; simpl; intros Hx; inversion Hx; subst; clear Hx;
    rewrite ?latch_nil, ?watcher_Stop_reason, ?app_nil_r,
      <- ?app_assoc; reflexivity.
Qed.

Lemma settled_run evs g x :
  settled g = Some x -> settled (run evs g) = Some x.
Proof.
  revert g. induction evs as [|ev evs IH]; intros g Hx; [exact Hx|].
  rewrite run_cons. apply IH, settled_step, Hx.
Qed.

Lemma settled_exited g x :
  settled g = Some x -> at_pc g = Exited ->
  x = (calls g, handler (nw g), tomb.reason (tomb (nw g))).
Proof. unfold settled. intros Hx Hp. rewrite Hp in Hx. congruence. Qed.

(** *** The invariant *)

Lemma replicate_shift {A} n (x : A) (l : list A) :
  replicate n x ++ x :: l = x :: replicate n x ++ l.
Proof. induction n as [|n IH]; simpl; congruence. Qed.

Lemma handled_S n h1 :
  handled (S n) h1 = snd (Handle (handled n h1)).
Proof. reflexivity. Qed.

Lemma quiet_S n h1 :
  quiet n h1 -> verdict n h1 = None -> quiet (S n) h1.
Proof.
  intros Hq Hn i Hi. destruct (Nat.eq_dec i n) as [->|Hne].
  - exact Hn.
  - apply Hq. lia.
Qed.

Lemma Inv_init h0 : Inv h0 (NewNotifyWorker h0).
Proof. repeat split. Qed.

Lemma Inv_step h0 ev g : Inv h0 g -> Inv h0 (step ev g).
Proof.
  destruct g as [[t h] p log]. unfold Inv. simpl.
  destruct p as [|w|ret ds| |].
  - (* before [loop] *)
    intros (Hdead & -> & -> & Hr).
    destruct ev; simpl; try (rewrite ?latch_nil; tauto).
    unfold step, loop_enter; simpl.
    destruct (SetUp h0) as [[ow oe] h1] eqn:Hsetup.
    destruct oe as [e|], ow as [w|]; simpl; (split; [exact Hdead|]).
    + exists e, [ActSetUp; ActWatcherStop], h1, None.
      split; [exact (Left_setup_error h0 _ _ _ Hsetup)|].
      unfold settled; simpl. rewrite Hr. reflexivity.
    + exists e, [ActSetUp], h1, None.
      split; [exact (Left_setup_error h0 _ _ _ Hsetup)|].
      unfold settled; simpl. rewrite Hr. reflexivity.
    + exists h1, 0. repeat split; try assumption.
      intros i Hi. lia.
    + exists (Errorf "SetUp returned a nil Watcher"), [ActSetUp], h1, None.
      split; [exact (Left_nil_watcher h0 _ Hsetup)|].
      unfold settled; simpl. rewrite Hr. reflexivity.
  - (* in the select *)
    intros (Hdead & h1 & n & Hsetup & Hq & -> & -> & Hr).
    destruct ev; simpl.
    + split; [exact Hdead|]. exists h1, n. tauto.
    + unfold step, loop_changes; simpl.
      destruct (Handle (handled n h1)) as [oe h'] eqn:Hh.
      assert (Hv : verdict n h1 = oe) by (unfold verdict; rewrite Hh; reflexivity).
      assert (Hs : handled (S n) h1 = h') by (rewrite handled_S, Hh; reflexivity).
      destruct oe as [e|]; simpl; (split; [exact Hdead|]).
      * exists e, (ActSetUp :: replicate (S n) ActHandle ++ [ActWatcherStop]),
          (handled (S n) h1), (tomb.latch (state.Stop w) None).
        split; [exact (Left_handle_error h0 _ _ _ _ Hsetup Hq Hv)|].
        unfold settled; simpl. rewrite Hr, Hs, <- !app_assoc. simpl.
        rewrite replicate_shift. reflexivity.
      * exists h1, (S n). rewrite Hs. simpl.
        rewrite replicate_shift, app_nil_r.
        repeat split; try assumption. apply quiet_S; assumption.
    + unfold step, loop_dying; simpl.
      destruct (tomb.Dying t); simpl; (split; [exact Hdead|]).
      * exists ErrDying, (ActSetUp :: replicate n ActHandle ++ [ActWatcherStop]),
          (handled n h1), (tomb.latch (state.Stop w) None).
        split; [exact (Left_dying h0 _ _ _ Hsetup Hq)|].
        unfold settled; simpl. rewrite Hr, <- !app_assoc. reflexivity.
      * exists h1, n. tauto.
    + split; [exact Hdead|]. exists h1, n. rewrite latch_nil. tauto.
  - (* unwinding *)
    intros (Hdead & ret' & log' & h' & r & Hleft & Hset).
    apply (settled_step ev) in Hset.
    destruct ev, ds as [|[|w] ds]; simpl in *;
      rewrite ?watcher_Stop_dead; (split; [exact Hdead|]); eauto 6.
  - intros (Hdead & ret' & log' & h' & r & Hleft & Hset).
    apply (settled_step ev) in Hset.
    destruct ev; simpl in *; (split; [first [exact Hdead | reflexivity]|]);
      eauto 6.
  - intros (Hdead & ret' & log' & h' & r & Hleft & Hset).
    apply (settled_step ev) in Hset.
    destruct ev; simpl in *; (split; [exact Hdead|]); eauto 6.
Qed.

Lemma Inv_run h0 evs g : Inv h0 g -> Inv h0 (run evs g).
Proof.
  revert g. induction evs as [|ev evs IH]; intros g Hg; [exact Hg|].
  rewrite run_cons. apply IH, Inv_step, Hg.
Qed.

(** Every state the worker started on [h0] can be in. *)
Lemma Inv_reachable h0 evs : Inv h0 (run evs (NewNotifyWorker h0)).
Proof. apply Inv_run, Inv_init. Qed.

(** A caller of [Wait] that has returned saw a goroutine that has
    exited, along one of the ways of [Left]. *)
Lemma Wait_returned h0 g v :
  Inv h0 g -> Wait g = Some v ->
  exists ret log h r,
    Left h0 ret log h r /\
    calls g = log ++ [ActTearDown] /\
    handler (nw g) = TearDown h /\
    v = tomb.latch (Some ret) r.
Proof.
  unfold Inv, Wait, tomb.Wait. intros [Hdead Hpc] Hw.
  destruct (tomb.dead (tomb (nw g))) eqn:Hd; [|discriminate].
  assert (Hex : at_pc g = Exited)
    by (destruct (at_pc g); simpl in Hdead; congruence).
  rewrite Hex in Hpc. destruct Hpc as (ret & log & h & r & Hleft & Hset).
  apply settled_exited in Hset; [|exact Hex].
  exists ret, log, h, r. inversion Hset. inversion Hw.
  repeat split; first [assumption | congruence].
Qed.

(** *** From a [return] of [loop] to the exit of the goroutine *)

Lemma moves_left_step ev g x :
  settled g = Some x ->
  moves_left (at_pc (step ev g))
  = moves_left (at_pc g) - (if event_eqb ev Run then 1 else 0).
Proof.
  destruct g as [[t h] p log]. unfold settled. simpl.
  destruct p as [|w|ret [|d ds]| |]; try discriminate; intros _;
    destruct ev; simpl; try lia.
  destruct (run_deferred d _). simpl. lia.
Qed.

Lemma exits evs g x :
  settled g = Some x ->
  moves_left (at_pc g) <= count Run evs ->
  at_pc (run evs g) = Exited.
Proof.
  revert g. induction evs as [|ev evs IH]; intros g Hx Hn.
  - simpl in *. unfold settled in Hx.
    destruct (at_pc g) as [| |ret ds| |]; simpl in Hn;
      try discriminate; try lia. reflexivity.
  - rewrite run_cons. apply IH.
    + apply settled_step, Hx.
    + rewrite (moves_left_step _ _ _ Hx). simpl in Hn.
      destruct ev; simpl in *; lia.
Qed.

(** Once [loop] has returned in a run of the worker started on [h0],
    enough moves of the goroutine give every caller of [Wait] the
    settled reason, with the settled log and handler. *)
Lemma finishes h0 evs g log h r :
  Inv h0 g ->
  settled g = Some (log, h, r) ->
  moves_left (at_pc g) <= count Run evs ->
  Wait (run evs g) = Some r /\
  calls (run evs g) = log /\
  handler (nw (run evs g)) = h.
Proof.
  intros Hinv Hx Hn.
  pose proof (exits _ _ _ Hx Hn) as Hex.
  pose proof (settled_run evs _ _ Hx) as Hx'.
  apply settled_exited in Hx'; [|exact Hex].
  destruct (Inv_run _ evs _ Hinv) as [Hdead _].
  rewrite Hex in Hdead. simpl in Hdead.
  unfold Wait, tomb.Wait. rewrite Hdead.
  inversion Hx'. repeat split; congruence.
Qed.

(** *** Before [loop] is entered, and inside the select *)

Lemma count_split e evs :
  1 <= count e evs ->
  exists evs1 evs2,
    evs = evs1 ++ e :: evs2 /\ count e evs1 = 0 /\
    count e evs = S (count e evs2).
Proof.
  induction evs as [|x evs IH]; simpl; [lia|].
  destruct (event_eqb x e) eqn:Hxe.
  - intros _. exists [], evs. destruct x, e; try discriminate; auto.
  - intros Hn. destruct IH as (evs1 & evs2 & -> & H1 & H2); [lia|].
    exists (x :: evs1), evs2. simpl. rewrite Hxe. auto.
Qed.

(** Until the goroutine makes its first move, only [Kill] changes
    anything, and only the dying flag. *)
Lemma spawned_idle evs t h log :
  count Run evs = 0 ->
  exists t',
    run evs (mkG (mkWorker t h) Spawned log)
    = mkG (mkWorker t' h) Spawned log /\
    tomb.reason t' = tomb.reason t /\ tomb.dead t' = tomb.dead t.
Proof.
  revert t. induction evs as [|ev evs IH]; intros t Hn.
  - exists t. auto.
  - rewrite run_cons. destruct ev; simpl in Hn; try lia;
      try (apply IH; exact Hn).
    destruct (IH (tomb.Kill None t) Hn) as (t' & Hrun & Hr & Hd).
    exists t'. rewrite Hr, Hd, Kill_nil_reason. auto.
Qed.

(** While the select does not take the dying case and [Handle]
    returns nil, every notification is one more call of [Handle]. *)
Lemma selecting_quiet evs t w h1 n :
  count SeeDying evs = 0 ->
  quiet (n + count Notify evs) h1 ->
  exists t',
    run evs (mkG (mkWorker t (handled n h1)) (Selecting w)
                 (ActSetUp :: replicate n ActHandle))
    = mkG (mkWorker t' (handled (n + count Notify evs) h1)) (Selecting w)
          (ActSetUp :: replicate (n + count Notify evs) ActHandle) /\
    tomb.reason t' = tomb.reason t /\ tomb.dead t' = tomb.dead t.
Proof.
  revert t n. induction evs as [|ev evs IH]; intros t n Hd Hq.
  - simpl. rewrite Nat.add_0_r. exists t. auto.
  - rewrite run_cons. destruct ev; simpl in Hd; try lia.
    + simpl in *. apply IH; assumption.
    + assert (Hq' : quiet (S n + count Notify evs) h1).
      { intros i Hi. apply Hq. simpl. lia. }
      destruct (IH t (S n) Hd Hq') as (t' & Hrun & Hr & Hdd).
      exists t'. split; [|auto].
      replace (n + count Notify (Notify :: evs))
        with (S n + count Notify evs) by (simpl; lia).
      rewrite <- Hrun. f_equal.
      unfold step, loop_changes; simpl.
      destruct (Handle (handled n h1)) as [oe h'] eqn:Hh.
      assert (Hv : verdict n h1 = oe)
        by (unfold verdict; rewrite Hh; reflexivity).
      rewrite (Hq n) in Hv by (simpl; lia). subst oe.
      assert (Hs : handled (S n) h1 = h')
        by (rewrite handled_S, Hh; reflexivity).
      subst h'. rewrite replicate_shift, app_nil_r. reflexivity.
    + simpl in *.
      destruct (IH (tomb.Kill None t) n Hd Hq) as (t' & Hrun & Hr & Hdd).
      exists t'. rewrite Hr, Hdd, Kill_nil_reason. auto.
Qed.

(** *** Whole runs *)

(** The goroutine enters [loop], [SetUp] succeeds, and [evs] keeps it
    in the select. *)
Lemma run_to_select h0 w h1 pre evs :
  SetUp h0 = (Some w, None, h1) ->
  count Run pre = 0 ->
  count SeeDying evs = 0 ->
  quiet (count Notify evs) h1 ->
  exists t,
    run (pre ++ Run :: evs) (NewNotifyWorker h0)
    = mkG (mkWorker t (handled (count Notify evs) h1)) (Selecting w)
          (ActSetUp :: replicate (count Notify evs) ActHandle) /\
    tomb.reason t = None /\ tomb.dead t = false.
Proof.
  intros Hsetup Hpre Hd Hq.
  destruct (spawned_idle pre tomb.zero h0 [] Hpre) as (t0 & Hrun0 & Hr0 & Hd0).
  destruct (selecting_quiet evs t0 w h1 0 Hd Hq) as (t & Hrun & Hr & Hdd).
  assert (Hstep : step Run (mkG (mkWorker t0 h0) Spawned [])
                  = mkG (mkWorker t0 (handled 0 h1)) (Selecting w)
                        (ActSetUp :: replicate 0 ActHandle)).
  { unfold step, loop_enter; simpl. rewrite Hsetup. reflexivity. }
  exists t. rewrite run_app, run_cons.
  unfold NewNotifyWorker. rewrite Hrun0, Hstep, Hrun, Hr, Hdd, Hr0, Hd0.
  auto.
Qed.

Lemma run_split pre evs rest g :
  run (pre ++ Run :: evs ++ rest) g = run rest (run (pre ++ Run :: evs) g).
Proof.
  change (pre ++ Run :: evs ++ rest) with (pre ++ (Run :: evs) ++ rest).
  rewrite app_assoc. apply run_app.
Qed.

(** A run in which the select takes the dying case after a [Kill]. *)
Lemma dying_run h0 w h1 pre evs post :
  SetUp h0 = (Some w, None, h1) ->
  count Run pre = 0 ->
  count SeeDying evs = 0 ->
  quiet (count Notify evs) h1 ->
  4 <= count Run post ->
  let g := run (pre ++ Run :: evs ++ CallKill :: SeeDying :: post)
               (NewNotifyWorker h0) in
  Wait g = Some (tomb.latch (state.Stop w) None) /\
  calls g = ActSetUp :: replicate (count Notify evs) ActHandle
            ++ [ActWatcherStop; ActTearDown] /\
  handler (nw g) = TearDown (handled (count Notify evs) h1).
Proof.
  intros Hsetup Hpre Hd Hq Hpost g.
  destruct (run_to_select h0 w h1 pre evs Hsetup Hpre Hd Hq)
    as (t & Hrun & Hr & Hdd).
  pose proof (Inv_reachable h0 (pre ++ Run :: evs)) as Hinv.
  apply (Inv_step _ CallKill), (Inv_step _ SeeDying) in Hinv.
  unfold g. rewrite run_split, !run_cons. revert Hinv.
  rewrite Hrun. simpl. unfold loop_dying, Kill, set_tomb, tomb.Dying.
  simpl. intros Hinv.
  eapply (finishes h0 post) in Hinv; [| reflexivity | simpl; lia].
  simpl in Hinv. rewrite latch_nil, Hr, latch_sentinel in Hinv.
  exact Hinv.
Qed.

(** A run in which call number [count Notify evs + 1] of [Handle]
    fails with [e]. *)
Lemma failing_run h0 w h1 pre evs post e :
  SetUp h0 = (Some w, None, h1) ->
  count Run pre = 0 ->
  count SeeDying evs = 0 ->
  quiet (count Notify evs) h1 ->
  verdict (count Notify evs) h1 = Some e ->
  4 <= count Run post ->
  let g := run (pre ++ Run :: evs ++ Notify :: post)
               (NewNotifyWorker h0) in
  Wait g = Some (tomb.latch (Some e) (tomb.latch (state.Stop w) None)) /\
  calls g = ActSetUp :: replicate (S (count Notify evs)) ActHandle
            ++ [ActWatcherStop; ActTearDown] /\
  handler (nw g) = TearDown (handled (S (count Notify evs)) h1).
Proof.
  intros Hsetup Hpre Hd Hq Hv Hpost g.
  destruct (run_to_select h0 w h1 pre evs Hsetup Hpre Hd Hq)
    as (t & Hrun & Hr & Hdd).
  assert (Hstep :
    step Notify
      (mkG (mkWorker t (handled (count Notify evs) h1)) (Selecting w)
           (ActSetUp :: replicate (count Notify evs) ActHandle))
    = mkG (mkWorker t (handled (S (count Notify evs)) h1))
          (Returning e [DeferWatcherStop w; DeferTearDown])
          (ActSetUp :: replicate (S (count Notify evs)) ActHandle)).
  { unfold step, loop_changes; simpl. unfold verdict in Hv.
    destruct (Handle (handled (count Notify evs) h1)) as [oe h'] eqn:Hh.
    simpl in Hv. subst oe.
    assert (Hs : handled (S (count Notify evs)) h1 = h')
      by (rewrite handled_S, Hh; reflexivity).
    subst h'. rewrite replicate_shift, app_nil_r. reflexivity. }
  pose proof (Inv_reachable h0 (pre ++ Run :: evs)) as Hinv.
  apply (Inv_step _ Notify) in Hinv.
  unfold g. rewrite run_split, run_cons. revert Hinv.
  rewrite Hrun, Hstep. intros Hinv.
  eapply (finishes h0 post) in Hinv; [| reflexivity | simpl; lia].
  simpl in Hinv. rewrite Hr in Hinv. simpl. exact Hinv.
Qed.

(** A run in which [SetUp] fails, or gives no watcher. *)
Lemma setup_failure_run h0 ow oe h1 evs :
  SetUp h0 = (ow, oe, h1) ->
  (oe = None -> ow = None) ->
  4 <= count Run evs ->
  let e := match oe with
           | Some e => e
           | None => Errorf "SetUp returned a nil Watcher"
           end in
  let g := run evs (NewNotifyWorker h0) in
  Wait g = Some (tomb.latch (Some e) None) /\
  calls g = ActSetUp :: match oe, ow with
                        | Some _, Some _ => [ActWatcherStop]
                        | _, _ => []
                        end ++ [ActTearDown] /\
  handler (nw g) = TearDown h1.
Proof.
  intros Hsetup Hnil Hn e g.
  destruct (count_split Run evs) as (pre & post & -> & Hpre & Hcount);
    [lia|].
  destruct (spawned_idle pre tomb.zero h0 [] Hpre) as (t0 & Hrun0 & Hr0 & Hd0).
  pose proof (Inv_reachable h0 pre) as Hinv.
  apply (Inv_step _ Run) in Hinv.
  unfold g. rewrite run_app, run_cons. revert Hinv.
  unfold NewNotifyWorker. rewrite Hrun0.
  unfold step, loop_enter. simpl.
  rewrite Hsetup. subst e.
  destruct oe as [e|], ow as [w'|]; simpl; intros Hinv;
    try (specialize (Hnil eq_refl); discriminate);
    (eapply (finishes h0 post) in Hinv; [| reflexivity | simpl; lia]);
    simpl in Hinv; rewrite Hr0 in Hinv; exact Hinv.
Qed.

(** In every state of a run, the log is the beginning of the log
    of a complete run. *)
Lemma calls_prefix h0 g :
  Inv h0 g ->
  calls g = [] \/
  (exists w h1 n,
      SetUp h0 = (Some w, None, h1) /\ quiet n h1 /\
      calls g = ActSetUp :: replicate n ActHandle) \/
  (exists ret log h r rest,
      Left h0 ret log h r /\ calls g ++ rest = log ++ [ActTearDown]).
Proof.
  unfold Inv. intros [_ Hpc].
  destruct (at_pc g) as [|w|ret ds| |] eqn:Hat.
  - left. tauto.
  - right; left. destruct Hpc as (h1 & n & ? & ? & ? & ? & ?).
    exists w, h1, n. auto.
  - right; right. destruct Hpc as (ret' & log & h & r & Hleft & Hset).
    unfold settled in Hset. rewrite Hat in Hset. inversion Hset.
    exists ret', log, h, r, (map act_of ds). auto.
  - right; right. destruct Hpc as (ret' & log & h & r & Hleft & Hset).
    unfold settled in Hset. rewrite Hat in Hset. inversion Hset.
    exists ret', log, h, r, []. rewrite app_nil_r. auto.
  - right; right. destruct Hpc as (ret' & log & h & r & Hleft & Hset).
    unfold settled in Hset. rewrite Hat in Hset. inversion Hset.
    exists ret', log, h, r, []. rewrite app_nil_r. auto.
Qed.

Lemma In_replicate {A} (x y : A) n : In x (replicate n y) -> x = y.
Proof. induction n as [|n IH]; simpl; [tauto|]. intros [->|Hx]; auto. Qed.

(** *** Release failures *)

(** C2, for an error other than the sentinel.  If shutdown was
    requested via [Kill()] (no [SetUp] or [Handle] failure) and the
    release of the watcher then reports an error [R] that is neither
    nil nor [tomb.ErrDying], [Wait()] returns [R].  First part: in every run in
    which, after any number of notifications handled without error,
    an observer calls [Kill], the select takes the dying case and the
    goroutine makes its four remaining moves, [Wait] returns [R].
    Second part: with a handler that never fails, no run ever makes
    [Wait] return anything else. *)
Theorem release_failure_after_kill h0 w h1 R :
  SetUp h0 = (Some w, None, h1) ->
  state.Stop w = Some R ->
  genuine (Some R) = true ->
  (forall pre evs post,
      count Run pre = 0 ->
      count SeeDying evs = 0 ->
      quiet (count Notify evs) h1 ->
      4 <= count Run post ->
      Wait (run (pre ++ Run :: evs ++ CallKill :: SeeDying :: post)
                (NewNotifyWorker h0))
      = Some (Some R)) /\
  (forall evs v,
      (forall n, verdict n h1 = None) ->
      Wait (run evs (NewNotifyWorker h0)) = Some v ->
      v = Some R).
Proof.
  intros Hsetup Hstop HR. split.
  - intros pre evs post Hpre Hd Hq Hpost.
    destruct (dying_run h0 w h1 pre evs post Hsetup Hpre Hd Hq Hpost)
      as (Hw & _).
    rewrite Hw, Hstop, latch_first by exact HR. reflexivity.
  - intros evs v Hnever Hw.
    destruct (Wait_returned h0 _ v (Inv_reachable h0 evs) Hw)
      as (ret & log & h & r & Hleft & _ & _ & ->).
    inversion Hleft; subst; try congruence.
    assert (w0 = w) by congruence. subst w0.
    rewrite Hstop, latch_sentinel, latch_first by exact HR.
    reflexivity.
Qed.

(** *** Order of the calls *)



(** *** Failures of [SetUp] *)


(** C5, for an error other than the sentinel.  If [SetUp] returns a
    watcher together with an error [err] that is neither nil nor
    [tomb.ErrDying], then in every run in which the goroutine makes its four
    moves [Wait()] returns [err], whatever the release of the watcher
    returned, and the log is [SetUp, watcher Stop, TearDown]: the
    watcher is released at once.  No state of any run has a call of
    [Handle] in its log. *)
Theorem setup_error_with_watcher h0 w err h1 :
  SetUp h0 = (Some w, Some err, h1) ->
  genuine (Some err) = true ->
  (forall evs,
      4 <= count Run evs ->
      let g := run evs (NewNotifyWorker h0) in
      Wait g = Some (Some err) /\
      calls g = [ActSetUp; ActWatcherStop; ActTearDown]) /\
  (forall evs, ~ In ActHandle (calls (run evs (NewNotifyWorker h0)))).
Proof.
  intros Hsetup Herr. split.
  - intros evs Hn g.
    destruct (setup_failure_run h0 (Some w) (Some err) h1 evs Hsetup)
      as (Hw & Hc & _); [discriminate | exact Hn |].
    fold g in Hw, Hc. rewrite latch_first in Hw by exact Herr.
    split; [exact Hw | exact Hc].
  - intros evs Hin.
    destruct (calls_prefix h0 _ (Inv_reachable h0 evs))
      as [Hnil | [(w' & h1' & n & Hs & _)
                 | (ret & log & h & r & rest & Hleft & Hc)]].
    + rewrite Hnil in Hin. exact Hin.
    + congruence.
    + assert (Hin' : In ActHandle (log ++ [ActTearDown])).
      { rewrite <- Hc. apply in_or_app. left. exact Hin. }
      inversion Hleft; subst; try congruence.
      assert (ow = Some w) by congruence. subst ow.
      simpl in Hin'. intuition discriminate.
Qed.

(** *** Notifications *)

(** C6. [N] notifications delivered before shutdown is requested,
    with [Handle] returning nil each time: the log of the run is
    [SetUp], then exactly [N] calls of [Handle], then the release and
    [TearDown]; and the calls are made one after the other, every call
    on the handler as the call before it left it, since the handler
    ends as [TearDown] applied to [N] iterations of [Handle] from the
    handler that [SetUp] left.  [evs] holds the [N] notifications (and,
    in any order, calls of [Kill] and idle moves); the select does not
    take the dying case before the end of [evs]. *)
Theorem handle_once_per_notification h0 w h1 N pre evs post :
  SetUp h0 = (Some w, None, h1) ->
  count Run pre = 0 ->
  count SeeDying evs = 0 ->
  count Notify evs = N ->
  quiet N h1 ->
  4 <= count Run post ->
  let g := run (pre ++ Run :: evs ++ CallKill :: SeeDying :: post)
               (NewNotifyWorker h0) in
  calls g = ActSetUp :: replicate N ActHandle
            ++ [ActWatcherStop; ActTearDown] /\
  handler (nw g)
  = TearDown (Nat.iter N (fun h => snd (Handle h)) h1).
Proof.
  intros Hsetup Hpre Hd HN Hq Hpost g. subst N.
  destruct (dying_run h0 w h1 pre evs post Hsetup Hpre Hd Hq Hpost)
    as (_ & Hc & Hh).
  split; [exact Hc | exact Hh].
Qed.

(** If [Handle] fails with a genuine error [E] on the notification
    after those of [evs], [Wait()] returns the error of the release
    of the watcher when there is one, and [E] only when the release
    succeeds: the deferred release latches its error before line 53
    latches the result of [loop]. *)
Lemma handle_failure_run h0 w h1 E pre evs post :
  SetUp h0 = (Some w, None, h1) ->
  count Run pre = 0 ->
  count SeeDying evs = 0 ->
  quiet (count Notify evs) h1 ->
  verdict (count Notify evs) h1 = Some E ->
  genuine (Some E) = true ->
  4 <= count Run post ->
  Wait (run (pre ++ Run :: evs ++ Notify :: post) (NewNotifyWorker h0))
  = Some (if genuine (state.Stop w) then state.Stop w else Some E).
Proof.
  intros Hsetup Hpre Hd Hq Hv HE Hpost.
  destruct (failing_run h0 w h1 pre evs post E Hsetup Hpre Hd Hq Hv Hpost)
    as (Hw & _).
  rewrite Hw. f_equal. destruct E as [|msg]; [discriminate|].
  destruct (state.Stop w) as [[|msg']|]; reflexivity.
Qed.

(** C7, for an error other than the sentinel.  If [Handle] returns
    an error [E] that is neither nil nor [tomb.ErrDying] on notification
    number [k] and the release of the watcher succeeds, [Wait()]
    returns [E] and the log is [SetUp], exactly [k] calls of
    [Handle], the release of the watcher, [TearDown], in that order.
    [evs] holds the first [k - 1] notifications. *)
Theorem handle_failure_stops_worker h0 w h1 k E pre evs post :
  SetUp h0 = (Some w, None, h1) ->
  state.Stop w = None ->
  count Run pre = 0 ->
  count SeeDying evs = 0 ->
  S (count Notify evs) = k ->
  quiet (k - 1) h1 ->
  verdict (k - 1) h1 = Some E ->
  genuine (Some E) = true ->
  4 <= count Run post ->
  let g := run (pre ++ Run :: evs ++ Notify :: post)
               (NewNotifyWorker h0) in
  Wait g = Some (Some E) /\
  calls g = ActSetUp :: replicate k ActHandle
            ++ [ActWatcherStop; ActTearDown].
Proof.
  intros Hsetup Hstop Hpre Hd Hk Hq Hv HE Hpost g. subst k.
  replace (S (count Notify evs) - 1) with (count Notify evs) in * by lia.
  destruct (failing_run h0 w h1 pre evs post E Hsetup Hpre Hd Hq Hv Hpost)
    as (Hw & Hc & _).
  fold g in Hw, Hc. split; [|exact Hc].
  rewrite Hw, Hstop, latch_nil, latch_first by exact HE. reflexivity.
Qed.

(** *** The observers *)

Lemma exited_stable evs g :
  at_pc g = Exited -> Wait (run evs g) = Wait g.
Proof.
  revert g. induction evs as [|ev evs IH]; intros g Hex; [reflexivity|].
  rewrite run_cons, IH.
  - destruct g as [[t h] p log]. simpl in Hex. subst p.
    destruct ev; try reflexivity.
    unfold Wait, tomb.Wait. simpl. rewrite latch_nil. reflexivity.
  - destruct g as [[t h] p log]. simpl in Hex. subst p.
    destruct ev; reflexivity.
Qed.

(** C8. The tomb is a one-shot latch.  A genuine error that is
    latched survives every later [Kill], be it with nil, with the
    dying sentinel or with another error; a nil or sentinel reason
    gives way to a genuine error; and once [Wait] has returned a value
    to one caller of a worker, it returns that value to every caller,
    whatever happens in between. *)
Theorem tomb_one_shot_latch :
  (forall t r,
      genuine (tomb.reason t) = true ->
      tomb.reason (tomb.Kill r t) = tomb.reason t) /\
  (forall t r,
      genuine (tomb.reason t) = false ->
      genuine r = true ->
      tomb.reason (tomb.Kill r t) = r) /\
  (forall h0 evs more v,
      Wait (run evs (NewNotifyWorker h0)) = Some v ->
      Wait (run (evs ++ more) (NewNotifyWorker h0)) = Some v).
Proof.
  repeat split.
  - intros t r Hg. apply latch_kept, Hg.
  - intros t r Hg Hr. apply latch_upgrade; assumption.
  - intros h0 evs more v Hw. rewrite run_app.
    destruct (Inv_reachable h0 evs) as [Hdead _].
    rewrite exited_stable; [exact Hw|].
    unfold Wait, tomb.Wait in Hw.
    destruct (tomb.dead _); [|discriminate].
    destruct (at_pc _); simpl in Hdead; congruence.
Qed.

(** C9. [Stop()] is [Kill()] followed by [Wait()]: in every state of
    the worker, and whatever the rest of the system does meanwhile,
    it returns what [Wait] returns after [Kill], and leaves the same
    state. *)
Theorem Stop_is_Kill_then_Wait evs g :
  Stop evs g = Kill_then_Wait evs g /\
  fst (Stop evs g) = Wait (run evs (Kill g)).
Proof. split; reflexivity. Qed.

End WorkerFacts.

End worker_facts.

(** ** The logger API *)

Module logger_facts.

Import logger.

Section LoggerFacts.

Context {Config ParamsError : Type}.
Variable Config_LoggingConfig : option Config -> option string.
Variable ServerError : option error -> option ParamsError.
Variable ErrPerm : error.

Abbreviation body := (LoggingConfig_body Config ParamsError
                    Config_LoggingConfig ServerError ErrPerm).
Abbreviation loop := (LoggingConfig_for Config ParamsError
                    Config_LoggingConfig ServerError ErrPerm).
Abbreviation slot_of := (slot Config ParamsError
                       Config_LoggingConfig ServerError ErrPerm).

Implicit Types (results : list (params.StringResult ParamsError)).

Lemma body_slot api config configErr i entity results :
  body api config configErr i entity results
  = match slot_of api config configErr entity with
    | Some f => Some (alter f i results)
    | None => None
    end.
Proof.
  unfold LoggingConfig_body, slot.
  destruct (AuthOwner api (params.Tag entity)); [|reflexivity].
  destruct configErr as [e|]; [|reflexivity].
  destruct (Config_LoggingConfig config) as [v|]; [|reflexivity].
  simpl. rewrite list_alter_alter_eq. reflexivity.
Qed.

(** The [for] writes the slot of every entity, and only that. *)
Lemma loop_slots api config configErr entities :
  forall i results results',
    loop api config configErr i entities results = Some results' ->
    length results' = length results /\
    (forall j, j < i -> results' !! j = results !! j) /\
    (forall k entity,
        entities !! k = Some entity ->
        exists f,
          slot_of api config configErr entity = Some f /\
          results' !! (i + k) = f <$> results !! (i + k)).
Proof.
  induction entities as [|entity rest IH]; intros i results results' Hrun.
  - simpl in Hrun. inversion Hrun; subst.
    repeat split; auto. intros k entity Hk. discriminate.
  - simpl in Hrun. rewrite body_slot in Hrun.
    destruct (slot_of api config configErr entity) as [f|] eqn:Hslot;
      [|discriminate].
    simpl in Hrun. apply IH in Hrun as (Hlen & Hlow & Hslots).
    rewrite length_alter in Hlen. repeat split; [exact Hlen| |].
    + intros j Hj. rewrite Hlow by lia.
      apply list_lookup_alter_ne. lia.
    + intros [|k] entity' Hk.
      * simpl in Hk. inversion Hk; subst entity'. exists f.
        split; [exact Hslot|].
        rewrite Nat.add_0_r, Hlow by lia.
        apply list_lookup_alter_eq.
      * simpl in Hk. destruct (Hslots k entity' Hk) as (f' & Hf' & Hres).
        exists f'. split; [exact Hf'|].
        replace (i + S k) with (S i + k) by lia. rewrite Hres.
        rewrite list_lookup_alter_ne by lia. reflexivity.
Qed.

(** When the environment configuration was fetched, no turn of the
    [for] panics. *)
Lemma loop_total api config entities :
  forall i results,
    exists results', loop api config None i entities results = Some results'.
Proof.
  induction entities as [|entity rest IH]; intros i results.
  - exists results. reflexivity.
  - simpl. rewrite body_slot. unfold slot.
    destruct (AuthOwner api (params.Tag entity)); simpl; apply IH.
Qed.

(** C10. [LoggingConfig], for an entity that the authorizer accepts.
    When fetching the environment configuration succeeded, the call
    returns, whatever the configuration is, and the result of the
    entity is the empty string with a nil error.  The logging value
    of the configuration is read instead when fetching failed: then,
    if the call returns, the result of the entity is that value, with
    a nil error. *)
Theorem LoggingConfig_condition_inverted api arg i entity :
  ServerError None = None ->
  arg !! i = Some entity ->
  AuthOwner api (params.Tag entity) = true ->
  (forall config,
      EnvironConfig api = (config, None) ->
      exists results,
        LoggingConfig Config ParamsError Config_LoggingConfig
                      ServerError ErrPerm api arg = Some results /\
        length results = length arg /\
        results !! i = Some (params.mkStringResult None EmptyString)) /\
  (forall config e results,
      EnvironConfig api = (config, Some e) ->
      LoggingConfig Config ParamsError Config_LoggingConfig
                    ServerError ErrPerm api arg = Some results ->
      exists v,
        Config_LoggingConfig config = Some v /\
        results !! i = Some (params.mkStringResult None v)).
Proof.
  intros Hnil Hi Hauth.
  pose proof (lookup_lt_Some _ _ _ Hi) as Hlt. split.
  - intros config Hcfg. unfold LoggingConfig. rewrite Hcfg.
    destruct (loop_total api config arg 0
                (replicate (length arg)
                   (params.mkStringResult None EmptyString)))
      as (results & Hrun).
    exists results. split; [exact Hrun|].
    apply loop_slots in Hrun as (Hlen & _ & Hslots).
    rewrite length_replicate in Hlen. split; [exact Hlen|].
    destruct (Hslots i entity Hi) as (f & Hf & Hres).
    unfold slot in Hf. rewrite Hauth in Hf. inversion Hf; subst f.
    simpl in Hres. rewrite Hres, lookup_replicate_2 by exact Hlt.
    simpl. unfold set_Error. rewrite Hnil. reflexivity.
  - intros config e results Hcfg Hrun. unfold LoggingConfig in Hrun.
    rewrite Hcfg in Hrun.
    apply loop_slots in Hrun as (_ & _ & Hslots).
    destruct (Hslots i entity Hi) as (f & Hf & Hres).
    unfold slot in Hf. rewrite Hauth in Hf.
    destruct (Config_LoggingConfig config) as [v|]; [|discriminate].
    inversion Hf; subst f. exists v. split; [reflexivity|].
    simpl in Hres. rewrite Hres, lookup_replicate_2 by exact Hlt.
    simpl. unfold set_Error, set_Result. rewrite Hnil. reflexivity.
Qed.

End LoggerFacts.

End logger_facts.

(** ** The runs of the test suite *)

Module scenarios.

Import worker worker_test fixtures worker_facts.

(** [ActionsHandler] returns the same [handlerError] on every call. *)
Lemma actor_verdict (a : ActionsHandler) n :
  verdict n a = handlerError a.
Proof.
  unfold verdict. simpl.
  assert (Hh : handlerError (handled n a) = handlerError a).
  { induction n as [|n IH]; [reflexivity|]. exact IH. }
  exact Hh.
Qed.

(** C1 says that when [Handle] returns a genuine error [E] and the
    release of the watcher then reports an error [R], [Wait()] returns
    [E].  The code does not do that.  Here [Handle] fails with "my
    handling error" on the first notification and the release fails with
    "error while stopping watcher": the deferred [watcher.Stop] of line 90
    latches the error of the release before line 53 latches the result of
    [loop], and [Wait()] returns the error of the release.  The branch of
    lines 80 to 85 drops the error of the release "because we already
    have an error"; the branch of line 97 has one as well.
    [worker_facts.handle_failure_run] is the same fact for every handler,
    watcher and schedule. *)
Theorem handle_error_lost_to_release_error :
  let g := run [Run; Notify; Run; Run; Run; Run]
               (NewNotifyWorker both_fail) in
  verdict 0 (record "setup" both_fail) = Some handling /\
  Wait g = Some (Some stopping) /\
  Wait g <> Some (Some handling) /\
  calls g = [ActSetUp; ActHandle; ActWatcherStop; ActTearDown].
Proof. repeat split. discriminate. Qed.

(** [TestWatcherStopFailurePropagates], after one notification. *)
Lemma release_failure_after_kill_witness :
  Wait (run [Run; Notify; CallKill; SeeDying; Run; Run; Run; Run]
            (NewNotifyWorker stop_fails))
  = Some (Some stopping) /\
  (forall v,
      Wait (run [CallKill; Run; SeeDying; Run; Run; Run; Run]
                (NewNotifyWorker stop_fails)) = Some v ->
      v = Some stopping).
Proof.
  pose proof (release_failure_after_kill stop_fails
                (mkTestWatcher (Some stopping))
                (record "setup" stop_fails) stopping
                eq_refl eq_refl eq_refl)
    as [Hrun Hall].
  split.
  - apply (Hrun [] [Notify] [Run; Run; Run; Run] eq_refl eq_refl).
    + intros i _. apply actor_verdict.
    + repeat constructor.
  - intros v. apply Hall. intros n. apply actor_verdict.
Defined.


(** The claim C2 does not hold for every non-nil error of the release.
    Here the release of the watcher returns [tomb.ErrDying], which is
    not nil, after a shutdown requested by [Kill]: the latch does not
    take the sentinel, and [Wait()] returns nil. *)
Lemma sentinel_from_release_is_dropped :
  let g := run [Run; CallKill; SeeDying; Run; Run; Run; Run]
               (NewNotifyWorker release_says_dying) in
  state.Stop (mkTestWatcher (Some ErrDying)) = Some ErrDying /\
  calls g = [ActSetUp; ActWatcherStop; ActTearDown] /\
  Wait g = Some None /\
  Wait g <> Some (Some ErrDying).
Proof. repeat split. discriminate. Qed.

(** The claim C5 does not hold for every non-nil error of [SetUp].
    Here [SetUp] returns a watcher together with [tomb.ErrDying]: the
    watcher is released and [Handle] is not called, but the latch does
    not take the sentinel, and [Wait()] returns nil. *)
Lemma sentinel_from_SetUp_is_dropped :
  let g := run [Run; Run; Run; Run] (NewNotifyWorker setup_says_dying) in
  SetUp setup_says_dying
  = (Some (mkTestWatcher None), Some ErrDying,
     record "setup" setup_says_dying) /\
  calls g = [ActSetUp; ActWatcherStop; ActTearDown] /\
  Wait g = Some None /\
  Wait g <> Some (Some ErrDying).
Proof. repeat split. discriminate. Qed.

(** The claim C7 does not hold for every non-nil error of [Handle].
    Here [Handle] returns [tomb.ErrDying] on the first notification and
    the release of the watcher succeeds: the calls are as the claim
    says, but the latch does not take the sentinel, and [Wait()]
    returns nil. *)
Lemma sentinel_from_Handle_is_dropped :
  let g := run [Run; Notify; Run; Run; Run; Run]
               (NewNotifyWorker handle_says_dying) in
  verdict 0 handle_says_dying = Some ErrDying /\
  state.Stop (mkTestWatcher (release handle_says_dying)) = None /\
  calls g = [ActSetUp; ActHandle; ActWatcherStop; ActTearDown] /\
  Wait g = Some None /\
  Wait g <> Some (Some ErrDying).
Proof. repeat split. discriminate. Qed.


(** [TestSetUpFailureStopsWithTearDown]. *)
Lemma setup_error_with_watcher_witness :
  let g := run [Run; CallKill; Run; Run; Run]
               (NewNotifyWorker setup_fails) in
  Wait g = Some (Some special) /\
  calls g = [ActSetUp; ActWatcherStop; ActTearDown].
Proof.
  apply (proj1 (@setup_error_with_watcher TestWatcher ActionsHandler
                  TestWatcher_NotifyWatcher ActionsHandler_WatchHandler
                  setup_fails (mkTestWatcher (Some stopping))
                  special (record "setup" setup_fails) eq_refl eq_refl)).
  repeat constructor.
Defined.

(** [TestChangesTriggerHandler]: three notifications, then [Stop]. *)
Lemma handle_once_per_notification_witness :
  let g := run [Run; Notify; Notify; Notify; CallKill; SeeDying;
                Run; Run; Run; Run] (NewNotifyWorker actor) in
  calls g = [ActSetUp; ActHandle; ActHandle; ActHandle;
             ActWatcherStop; ActTearDown] /\
  actions (handler (nw g))
  = ["setup"; "handler"; "handler"; "handler"; "teardown"]%string.
Proof.
  pose proof (handle_once_per_notification actor (mkTestWatcher None)
                (record "setup" actor) 3 [] [Notify; Notify; Notify]
                [Run; Run; Run; Run] eq_refl eq_refl eq_refl eq_refl)
    as Hrun.
  destruct Hrun as [Hc Hh].
  - intros i _. apply actor_verdict.
  - repeat constructor.
  - split; [exact Hc | exact (f_equal actions Hh)].
Defined.

(** A handler that fails on the second notification. *)
Lemma handle_failure_stops_worker_witness :
  let g := run [CallKill; Run; Notify; Notify; Run; Run; Run; Run]
               (NewNotifyWorker (mkDowncount handling 1 None)) in
  Wait g = Some (Some handling) /\
  calls g = [ActSetUp; ActHandle; ActHandle; ActWatcherStop; ActTearDown].
Proof.
  apply (@handle_failure_stops_worker TestWatcher Downcount
           TestWatcher_NotifyWatcher Downcount_WatchHandler
           (mkDowncount handling 1 None) (mkTestWatcher None) (mkDowncount handling 1 None) 2 handling
           [CallKill] [Notify] [Run; Run; Run; Run]
           eq_refl eq_refl eq_refl eq_refl eq_refl).
  - intros [|i] Hi; [reflexivity | exfalso; lia].
  - reflexivity.
  - reflexivity.
  - repeat constructor.
Defined.

(** A latched error survives a [Kill] with another error, nil is
    upgraded, and [Wait] keeps its value after two more calls of
    [Kill]. *)
Lemma tomb_one_shot_latch_witness :
  tomb.reason (tomb.Kill (Some stopping)
                         (tomb.mkTomb true false (Some handling)))
  = Some handling /\
  tomb.reason (tomb.Kill (Some stopping) (tomb.Kill None tomb.zero))
  = Some stopping /\
  Wait (run ([Run; CallKill; SeeDying; Run; Run; Run; Run]
             ++ [CallKill; CallKill]) (NewNotifyWorker actor))
  = Some None.
Proof.
  destruct (@tomb_one_shot_latch TestWatcher ActionsHandler _ _)
    as (Hkept & Hup & Hwait).
  split; [|split].
  - apply (Hkept (tomb.mkTomb true false (Some handling))). reflexivity.
  - apply (Hup (tomb.Kill None tomb.zero)); reflexivity.
  - apply Hwait. reflexivity.
Defined.

End scenarios.

(** ** A call of [LoggingConfig] *)

Module logger_scenarios.

Import logger logger_facts fixtures.

Lemma LoggingConfig_condition_inverted_witness :
  (exists results,
      LoggingConfig string error logging_of server_error permission_denied
                    api_fetched machines
      = Some results /\
      length results = 2 /\
      results !! 1 = Some (params.mkStringResult None EmptyString)) /\
  (forall results,
      LoggingConfig string error logging_of server_error permission_denied
                    api_failed machines
      = Some results ->
      exists v,
        logging_of (Some "<root>=DEBUG"%string) = Some v /\
        results !! 1 = Some (params.mkStringResult None v)).
Proof.
  split.
  - apply (proj1 (LoggingConfig_condition_inverted logging_of server_error
                    permission_denied api_fetched machines
                    1 (params.mkEntity "machine-0")
                    eq_refl eq_refl eq_refl)
                 (Some "<root>=DEBUG"%string) eq_refl).
  - intros results.
    apply (proj2 (LoggingConfig_condition_inverted logging_of server_error
                    permission_denied api_failed machines
                    1 (params.mkEntity "machine-0")
                    eq_refl eq_refl eq_refl)
                 (Some "<root>=DEBUG"%string) (Errorf "not found") results
                 eq_refl).
Defined.

End logger_scenarios.

(** * More about the worker *)

Module worker_more.

Import worker worker_words tomb_facts worker_facts.

Section WorkerMore.

Context {W H : Type}.
Context `{NW : state.NotifyWatcher W} `{WH : WatchHandler W H}.

Implicit Types (g : @goroutine W H) (evs : list event) (h : H).

#[local] Arguments handled : simpl never.
#[local] Arguments tomb.latch : simpl never.

(** *** [Kill] always ends the worker *)





(** *** A worker does not stop by itself *)

Lemma waiting_run h0 w h1 evs :
  SetUp h0 = (Some w, None, h1) ->
  (forall n, verdict n h1 = None) ->
  count CallKill evs = 0 ->
  forall g, Inv h0 g -> waiting g -> waiting (run evs g).
Proof.
  intros Hsetup Hnever.
  induction evs as [|ev evs IH]; intros Hk g Hinv Hw; [exact Hw|].
  rewrite run_cons. simpl in Hk.
  apply IH; [destruct ev; simpl in Hk; lia | apply Inv_step, Hinv |].
  destruct g as [[t h] p log]. destruct Hw as [Hd [Hp | [w' Hp]]];
    simpl in Hd, Hp; subst p.
  - destruct Hinv as (_ & Hh & _). simpl in Hh. subst h.
    destruct ev; simpl in Hk; try lia; try (split; [exact Hd | auto]).
    unfold step, loop_enter. simpl. rewrite Hsetup. simpl.
    split; [exact Hd | eauto].
  - destruct Hinv as (_ & h1' & n & Hs & _ & Hh & _). simpl in Hh. subst h.
    assert (h1' = h1) by congruence. subst h1'.
    destruct ev; simpl in Hk; try lia.
    + split; [exact Hd | eauto].
    + unfold step, loop_changes. simpl.
      pose proof (Hnever n) as Hv. unfold verdict in Hv.
      destruct (Handle (handled n h1)) as [oe h']. simpl in Hv. subst oe.
      split; [exact Hd | eauto].
    + unfold step, loop_dying, tomb.Dying. simpl. rewrite Hd.
      split; [exact Hd | eauto].
Qed.

(** X2. A worker whose [SetUp] succeeded and whose [Handle] never fails
    does not stop by itself: as long as no observer calls [Kill], a
    caller of [Wait()] stays blocked and [TearDown] is not called,
    however many notifications arrive. *)
Theorem Wait_blocks_until_Kill h0 w h1 evs :
  SetUp h0 = (Some w, None, h1) ->
  (forall n, verdict n h1 = None) ->
  count CallKill evs = 0 ->
  let g := run evs (NewNotifyWorker h0) in
  Wait g = None /\ ~ In ActTearDown (calls g).
Proof.
  intros Hsetup Hnever Hk g.
  pose proof (Inv_reachable h0 evs) as Hinv. fold g in Hinv.
  assert (Hw : waiting g).
  { apply (waiting_run h0 w h1 evs Hsetup Hnever Hk).
    - apply Inv_init.
    - split; [reflexivity | left; reflexivity]. }
  destruct Hw as [_ Hp]. destruct Hinv as [Hdead Hpc]. split.
  - unfold Wait, tomb.Wait. rewrite Hdead.
    destruct Hp as [-> | [w' ->]]; reflexivity.
  - destruct Hp as [Hp | [w' Hp]]; rewrite Hp in Hpc.
    + destruct Hpc as (_ & -> & _). simpl. tauto.
    + destruct Hpc as (h1' & n & _ & _ & _ & -> & _).
      simpl. intros [Hin | Hin]; [discriminate|].
      apply In_replicate in Hin. discriminate.
Qed.

(** *** After the exit *)

Lemma exited_frozen evs g :
  at_pc g = Exited ->
  at_pc (run evs g) = Exited /\
  calls (run evs g) = calls g /\
  handler (nw (run evs g)) = handler (nw g).
Proof.
  revert g. induction evs as [|ev evs IH]; intros g Hex; [auto|].
  rewrite run_cons.
  assert (Hstep : at_pc (step ev g) = Exited /\
                  calls (step ev g) = calls g /\
                  handler (nw (step ev g)) = handler (nw g)).
  { destruct g as [[t h] p log]. simpl in Hex. subst p.
    destruct ev; auto. }
  destruct Hstep as (Hp & Hc & Hh).
  destruct (IH _ Hp) as (Hp' & Hc' & Hh').
  rewrite Hc', Hh', Hc, Hh. auto.
Qed.

(** X3. Once [Wait()] has returned, the worker is finished for good:
    nothing that happens later (notifications, calls of [Kill], moves of
    the scheduler) makes another call on the handler or the watcher, so
    [TearDown] stays the last call and the handler stays as [TearDown]
    left it. *)
Theorem nothing_after_Wait h0 evs more v :
  Wait (run evs (NewNotifyWorker h0)) = Some v ->
  calls (run (evs ++ more) (NewNotifyWorker h0))
  = calls (run evs (NewNotifyWorker h0)) /\
  handler (nw (run (evs ++ more) (NewNotifyWorker h0)))
  = handler (nw (run evs (NewNotifyWorker h0))).
Proof.
  intros Hw. rewrite run_app.
  destruct (Inv_reachable h0 evs) as [Hdead _].
  apply exited_frozen.
  unfold Wait, tomb.Wait in Hw.
  destruct (tomb.dead _); [|discriminate].
  destruct (at_pc _); simpl in Hdead; congruence.
Qed.

(** X4. For every handler, whatever [SetUp] returns and however the
    loop ends: when [Wait()] returns, [SetUp] was the first call and
    was made once, [TearDown] was the last call and was made once. *)
Theorem SetUp_first_TearDown_last h0 evs v :
  Wait (run evs (NewNotifyWorker h0)) = Some v ->
  exists middle,
    calls (run evs (NewNotifyWorker h0))
    = ActSetUp :: middle ++ [ActTearDown] /\
    ~ In ActSetUp middle /\ ~ In ActTearDown middle.
Proof.
  intros Hw.
  destruct (Wait_returned h0 _ v (Inv_reachable h0 evs) Hw)
    as (ret & log & h & r & Hleft & Hc & _ & _).
  rewrite Hc. inversion Hleft; subst.
  - exists (match ow with Some _ => [ActWatcherStop] | None => [] end).
    split; [reflexivity|]. destruct ow; simpl; intuition discriminate.
  - exists []. simpl. tauto.
  - exists (replicate n ActHandle ++ [ActWatcherStop]).
    split; [reflexivity|].
    split; intros Hin; apply in_app_or in Hin as [Hin | Hin];
      try (apply In_replicate in Hin; discriminate);
      simpl in Hin; intuition discriminate.
  - exists (replicate (S n) ActHandle ++ [ActWatcherStop]).
    split; [reflexivity|].
    split; intros Hin; apply in_app_or in Hin as [Hin | Hin];
      try (apply In_replicate in Hin; discriminate);
      simpl in Hin; intuition discriminate.
Qed.

(** *** What [Wait] can return *)

Lemma latch_clean (r latched : option error) :
  latched = None \/ genuine latched = true ->
  tomb.latch r latched = None \/ genuine (tomb.latch r latched) = true.
Proof.
  unfold tomb.latch. intros [-> | Hg].
  - simpl. destruct (genuine r) eqn:Hr; auto.
  - rewrite Hg. auto.
Qed.

(** X5. [Wait()] never returns the dying sentinel: the error it returns
    is nil or a genuine error, also when [loop] returned [tomb.ErrDying]
    or when a handler or a watcher handed the sentinel to the worker. *)
Theorem Wait_never_returns_sentinel h0 evs v :
  Wait (run evs (NewNotifyWorker h0)) = Some v ->
  v = None \/ genuine v = true.
Proof.
  intros Hw.
  destruct (Wait_returned h0 _ v (Inv_reachable h0 evs) Hw)
    as (ret & log & h & r & Hleft & _ & _ & ->).
  apply latch_clean.
  inversion Hleft; subst; auto; apply latch_clean; auto.
Qed.

(** *** [Kill] *)

(** [Kill()] is a signal and nothing else: it leaves the log, the
    handler, the place of the goroutine and what [Wait()] returns as
    they are, and a second [Kill()] changes nothing at all. *)
Lemma Kill_only_signals g :
  Kill (Kill g) = Kill g /\
  Wait (Kill g) = Wait g /\
  calls (Kill g) = calls g /\
  handler (nw (Kill g)) = handler (nw g) /\
  at_pc (Kill g) = at_pc g /\
  tomb.Dying (tomb (nw (Kill g))) = true.
Proof.
  destruct g as [[t h] p log].
  unfold Kill, set_tomb, Wait, tomb.Wait, tomb.Kill. simpl.
  rewrite !latch_nil. repeat split.
Qed.

(** *** After [loop] has returned *)

Lemma returned_step ev g x :
  settled g = Some x ->
  exists extra,
    calls (step ev g) = calls g ++ extra /\
    Forall (fun a => a = ActWatcherStop \/ a = ActTearDown) extra.
Proof.
  destruct g as [[t h] p log]. unfold settled. simpl.
  destruct p as [|w|ret [|[|w] ds]| |]; try discriminate; intros _;
    destruct ev; simpl;
    first [ exists []; rewrite app_nil_r; split; [reflexivity | constructor]
          | exists [ActTearDown]; split; [reflexivity | auto]
          | exists [ActWatcherStop]; split; [reflexivity | auto] ].
Qed.

(** X6. Once [loop] has executed a [return] (the select saw the tomb
    dying, or [Handle] or [SetUp] failed), notifications are no longer
    handled: whatever happens next, the only calls still made are the
    release of the watcher and [TearDown]. *)
Theorem no_Handle_after_return evs g x :
  settled g = Some x ->
  exists extra,
    calls (run evs g) = calls g ++ extra /\
    Forall (fun a => a = ActWatcherStop \/ a = ActTearDown) extra.
Proof.
  revert g. induction evs as [|ev evs IH]; intros g Hx.
  - exists []. rewrite app_nil_r. split; [reflexivity | constructor].
  - rewrite run_cons.
    destruct (returned_step ev g x Hx) as (e1 & Hc1 & Hf1).
    destruct (IH _ (settled_step ev g x Hx)) as (e2 & Hc2 & Hf2).
    exists (e1 ++ e2). rewrite Hc2, Hc1, <- app_assoc.
    split; [reflexivity|]. apply Forall_app; auto.
Qed.

(** *** Clean shutdown and the failure of [SetUp] alone *)


(** X8. If [SetUp] returns no watcher and a genuine error [err], then
    in every run in which the goroutine makes its four moves [Wait()]
    returns [err] and the log is [SetUp, TearDown]; no state of any run
    has a release of a watcher in its log. *)
Theorem setup_error_without_watcher h0 err h1 :
  SetUp h0 = (None, Some err, h1) ->
  genuine (Some err) = true ->
  (forall evs,
      4 <= count Run evs ->
      let g := run evs (NewNotifyWorker h0) in
      Wait g = Some (Some err) /\
      calls g = [ActSetUp; ActTearDown]) /\
  (forall evs, ~ In ActWatcherStop (calls (run evs (NewNotifyWorker h0)))).
Proof.
  intros Hsetup Herr. split.
  - intros evs Hn g.
    destruct (setup_failure_run h0 None (Some err) h1 evs Hsetup)
      as (Hw & Hc & _); [discriminate | exact Hn |].
    fold g in Hw, Hc. rewrite latch_first in Hw by exact Herr.
    split; [exact Hw | exact Hc].
  - intros evs Hin.
    destruct (calls_prefix h0 _ (Inv_reachable h0 evs))
      as [Hnil | [(w' & h1' & n & Hs & _)
                 | (ret & log & h & r & rest & Hleft & Hc)]].
    + rewrite Hnil in Hin. exact Hin.
    + congruence.
    + assert (Hin' : In ActWatcherStop (log ++ [ActTearDown])).
      { rewrite <- Hc. apply in_or_app. left. exact Hin. }
      inversion Hleft; subst; try congruence.
      assert (ow = None) by congruence. subst ow.
      simpl in Hin'. intuition discriminate.
Qed.

(** *** What the worker never does *)

Lemma times_app a log1 log2 :
  times a (log1 ++ log2) = times a log1 + times a log2.
Proof.
  induction log1 as [|x log1 IH]; [reflexivity|].
  simpl. rewrite IH. lia.
Qed.

Lemma times_replicate a b n :
  times a (replicate n b) = if action_eqb b a then n else 0.
Proof.
  induction n as [|n IH]; simpl; [destruct (action_eqb b a); reflexivity|].
  rewrite IH. destruct (action_eqb b a); reflexivity.
Qed.

Lemma times_Left h0 ret log h r :
  Left h0 ret log h r ->
  times ActSetUp (log ++ [ActTearDown]) = 1 /\
  times ActWatcherStop (log ++ [ActTearDown]) <= 1 /\
  times ActTearDown (log ++ [ActTearDown]) = 1 /\
  exists rest, log = ActSetUp :: rest.
Proof.
  intros Hleft. inversion Hleft; subst.
  - destruct ow; simpl; repeat split; eauto.
  - simpl; repeat split; eauto.
  - simpl. rewrite !times_app, !times_replicate. simpl.
    repeat split; eauto.
  - rewrite <- app_comm_cons. cbn [times]. rewrite !times_app, !times_replicate. simpl.
    repeat split; eauto.
Qed.

(** X9. In every state of every run, finished or not: [SetUp],
    [TearDown] and the release of the watcher have each been called at
    most once, and if anything was called, [SetUp] was called first. *)
Theorem never_more_than_once h0 evs :
  let log := calls (run evs (NewNotifyWorker h0)) in
  times ActSetUp log <= 1 /\
  times ActWatcherStop log <= 1 /\
  times ActTearDown log <= 1 /\
  (log = [] \/ exists rest, log = ActSetUp :: rest).
Proof.
  intros log.
  destruct (calls_prefix h0 _ (Inv_reachable h0 evs))
    as [Hnil | [(w & h1 & n & _ & _ & Hc)
               | (ret & full & h & r & rest & Hleft & Hc)]];
    fold log in Hnil || fold log in Hc.
  - rewrite Hnil. simpl. repeat split; try lia. auto.
  - rewrite Hc. simpl. rewrite !times_replicate. simpl.
    repeat split; try lia. right. eauto.
  - destruct (times_Left _ _ _ _ _ Hleft) as (H1 & H2 & H3 & first & Hf).
    rewrite <- Hc, !times_app in H1, H2, H3.
    repeat split; try lia.
    destruct log as [|a log']; [auto|]. right.
    rewrite Hf in Hc. simpl in Hc. inversion Hc. eauto.
Qed.

Lemma handle_step ev g :
  times ActHandle (calls (step ev g))
  <= times ActHandle (calls g) + (if event_eqb ev Notify then 1 else 0).
Proof.
  destruct g as [[t h] p log].
  destruct p as [|w|ret [|d ds]| |]; destruct ev; simpl; try lia.
  - unfold loop_enter. simpl.
    destruct (SetUp h) as [[[w|] [e|]] h1]; simpl;
      rewrite ?times_app; simpl; lia.
  - unfold loop_changes. simpl.
    destruct (Handle h) as [[e|] h1]; simpl; rewrite times_app; simpl; lia.
  - unfold loop_dying. simpl. destruct (tomb.Dying t); simpl; lia.
  - destruct d; simpl; rewrite times_app; simpl; lia.
Qed.

(** X10. [Handle] is called only for a notification: in every state of
    every run, the number of calls of [Handle] is at most the number of
    values the select received from the watcher. *)
Theorem Handle_needs_notification h0 evs :
  times ActHandle (calls (run evs (NewNotifyWorker h0)))
  <= count Notify evs.
Proof.
  assert (Hgen : forall g,
             times ActHandle (calls (run evs g))
             <= times ActHandle (calls g) + count Notify evs).
  { induction evs as [|ev evs IH]; intros g; [simpl; lia|].
    rewrite run_cons. specialize (IH (step ev g)).
    pose proof (handle_step ev g). simpl.
    destruct ev; simpl in *; lia. }
  apply (Hgen (NewNotifyWorker h0)).
Qed.

End WorkerMore.

End worker_more.

(** * The doubles of the test suite *)

Module worker_test_facts.

Import worker worker_test worker_words worker_facts.

Lemma record_log ev (g : @goroutine TestWatcher ActionsHandler) :
  exists extra,
    calls (step ev g) = calls g ++ extra /\
    actions (handler (nw (step ev g)))
    = actions (handler (nw g)) ++ omap name_of extra /\
    setupError (handler (nw (step ev g))) = setupError (handler (nw g)) /\
    handlerError (handler (nw (step ev g)))
    = handlerError (handler (nw g)) /\
    watcher (handler (nw (step ev g))) = watcher (handler (nw g)).
Proof.
  destruct g as [[t a] p log].
  destruct p as [|w|ret [|[|w] ds]| |]; destruct ev; simpl;
    try (exists []; rewrite !app_nil_r; repeat split; reflexivity).
  - unfold loop_enter. simpl.
    destruct (watcher a) as [w|] eqn:Hw, (setupError a) as [e|] eqn:He;
      simpl.
    + exists [ActSetUp; ActWatcherStop]. rewrite <- app_assoc.
      repeat split; assumption.
    + exists [ActSetUp]. repeat split; assumption.
    + exists [ActSetUp]. repeat split; assumption.
    + exists [ActSetUp]. repeat split; assumption.
  - unfold loop_changes. simpl.
    destruct (handlerError a) as [e|] eqn:He; simpl;
      exists [ActHandle]; repeat split; assumption.
  - unfold loop_dying. simpl.
    destruct (tomb.Dying t); simpl;
      exists []; rewrite !app_nil_r; repeat split; reflexivity.
  - exists [ActTearDown]. repeat split; reflexivity.
  - exists [ActWatcherStop]. simpl. rewrite app_nil_r.
    repeat split; reflexivity.
Qed.

(** X11. What the tests read is what the worker did: in every state of
    every run of a worker on an [ActionsHandler], the handler's
    [actions] are the names of the calls the worker made on the
    handler, in the order in which it made them, after the actions the
    handler held before; the worker changes no other field of the
    handler. *)
Theorem actions_are_the_calls (a : ActionsHandler) evs :
  let g := run evs (NewNotifyWorker a) in
  actions (handler (nw g)) = actions a ++ omap name_of (calls g) /\
  setupError (handler (nw g)) = setupError a /\
  handlerError (handler (nw g)) = handlerError a /\
  watcher (handler (nw g)) = watcher a.
Proof.
  assert (Hgen : forall g : @goroutine TestWatcher ActionsHandler,
             exists extra,
               calls (run evs g) = calls g ++ extra /\
               actions (handler (nw (run evs g)))
               = actions (handler (nw g)) ++ omap name_of extra /\
               setupError (handler (nw (run evs g)))
               = setupError (handler (nw g)) /\
               handlerError (handler (nw (run evs g)))
               = handlerError (handler (nw g)) /\
               watcher (handler (nw (run evs g)))
               = watcher (handler (nw g))).
  { induction evs as [|ev evs IH]; intros g.
    - exists []. rewrite !app_nil_r. repeat split; reflexivity.
    - rewrite run_cons.
      destruct (record_log ev g) as (e1 & Hc1 & Ha1 & Hs1 & Hh1 & Hw1).
      destruct (IH (step ev g)) as (e2 & Hc2 & Ha2 & Hs2 & Hh2 & Hw2).
      exists (e1 ++ e2).
      rewrite Hc2, Hc1, Ha2, Ha1, Hs2, Hs1, Hh2, Hh1, Hw2, Hw1.
      rewrite omap_app, !app_assoc. repeat split; reflexivity. }
  intros g. destruct (Hgen (NewNotifyWorker a))
    as (extra & Hc & Ha & Hs & Hh & Hw).
  fold g in Hc, Ha, Hs, Hh, Hw. simpl in Hc. subst extra.
  repeat split; assumption.
Qed.

End worker_test_facts.

(** * More about the logger API *)

Module logger_more.

Import logger logger_facts.

Section LoggerMore.

Context {Config ParamsError : Type}.
Variable Config_LoggingConfig : option Config -> option string.
Variable ServerError : option error -> option ParamsError.
Variable ErrPerm : error.

Abbreviation loop := (LoggingConfig_for Config ParamsError
                    Config_LoggingConfig ServerError ErrPerm).
Abbreviation slot_of := (slot Config ParamsError
                       Config_LoggingConfig ServerError ErrPerm).

Implicit Types (results : list (params.StringResult ParamsError)).

(** The [for] panics exactly when the turn of one of the entities
    does. *)
Lemma loop_panics api config configErr entities :
  forall i results,
    loop api config configErr i entities results = None <->
    exists entity,
      In entity entities /\ slot_of api config configErr entity = None.
Proof.
  induction entities as [|entity rest IH]; intros i results.
  - simpl. split; [discriminate | intros (? & [] & _)].
  - simpl. rewrite body_slot.
    destruct (slot_of api config configErr entity) as [f|] eqn:Hslot.
    + simpl. rewrite IH. split.
      * intros (e & Hin & He). eauto.
      * intros (e & [<- | Hin] & He); [congruence | eauto].
    + simpl. split; [eauto | reflexivity].
Qed.

(** X12. When [LoggingConfig] returns, it returns one result for every
    entity of the argument, in the order of the argument, and the
    result of an entity that the authorizer does not accept is the
    empty string with the permission error, whether or not the
    environment configuration could be fetched. *)
Theorem LoggingConfig_refuses_others api arg results :
  LoggingConfig Config ParamsError Config_LoggingConfig ServerError
                ErrPerm api arg
  = Some results ->
  length results = length arg /\
  forall i entity,
    arg !! i = Some entity ->
    AuthOwner api (params.Tag entity) = false ->
    results !! i
    = Some (params.mkStringResult (ServerError (Some ErrPerm)) EmptyString).
Proof.
  unfold LoggingConfig. destruct (EnvironConfig api) as [config configErr].
  intros Hrun. apply loop_slots in Hrun as (Hlen & _ & Hslots).
  rewrite length_replicate in Hlen. split; [exact Hlen|].
  intros i entity Hi Hauth.
  destruct (Hslots i entity Hi) as (f & Hf & Hres).
  unfold slot in Hf. rewrite Hauth in Hf. inversion Hf; subst f.
  simpl in Hres. rewrite Hres.
  rewrite lookup_replicate_2 by (eapply lookup_lt_Some; exact Hi).
  reflexivity.
Qed.

(** X13. [LoggingConfig] panics in one case only: fetching the
    environment configuration failed, the authorizer accepts an entity
    of the argument, and reading the logging value of the configuration
    that came with the error panics.  In every other case it
    returns. *)
Theorem LoggingConfig_panics_iff api arg :
  LoggingConfig Config ParamsError Config_LoggingConfig ServerError
                ErrPerm api arg
  = None <->
  exists config e entity,
    EnvironConfig api = (config, Some e) /\
    In entity arg /\
    AuthOwner api (params.Tag entity) = true /\
    Config_LoggingConfig config = None.
Proof.
  unfold LoggingConfig. destruct (EnvironConfig api) as [config configErr].
  rewrite loop_panics. unfold slot. split.
  - intros (entity & Hin & Hslot).
    destruct (AuthOwner api (params.Tag entity)) eqn:Hauth; [|discriminate].
    destruct configErr as [e|]; [|discriminate].
    destruct (Config_LoggingConfig config) eqn:Hcfg; [discriminate|].
    exists config, e, entity. auto.
  - intros (config' & e & entity & Heq & Hin & Hauth & Hcfg).
    inversion Heq; subst. exists entity. split; [exact Hin|].
    rewrite Hauth, Hcfg. reflexivity.
Qed.

(** X14. The result of an entity depends on the entity only: not on
    its place in the argument, not on the other entities, not on the
    length of the argument.  Two calls on the same API give the same
    result for the same entity. *)
Theorem LoggingConfig_result_by_entity api arg arg' results results'
  i j entity :
  LoggingConfig Config ParamsError Config_LoggingConfig ServerError
                ErrPerm api arg
  = Some results ->
  LoggingConfig Config ParamsError Config_LoggingConfig ServerError
                ErrPerm api arg'
  = Some results' ->
  arg !! i = Some entity ->
  arg' !! j = Some entity ->
  results !! i = results' !! j.
Proof.
  unfold LoggingConfig. destruct (EnvironConfig api) as [config configErr].
  intros Hrun Hrun' Hi Hj.
  apply loop_slots in Hrun as (_ & _ & Hslots).
  apply loop_slots in Hrun' as (_ & _ & Hslots').
  destruct (Hslots i entity Hi) as (f & Hf & Hres).
  destruct (Hslots' j entity Hj) as (f' & Hf' & Hres').
  assert (f' = f) by congruence. subst f'.
  simpl in Hres, Hres'. rewrite Hres, Hres'.
  rewrite !lookup_replicate_2 by (eapply lookup_lt_Some; eassumption).
  reflexivity.
Qed.

End LoggerMore.

End logger_more.

(** * [WatchLoggingConfig] *)

Module logger_watch_facts.

Import logger_watch.

Section WatchFacts.

Context {St Wt Res ParamsError : Type}.
Variable WatchForEnvironConfigChanges : St -> Wt * St.
Variable initial_event : Wt -> bool.
Variable Register : Res -> Wt -> string * Res.
Variable MustErr : Wt -> option error.
Variable ServerError : option error -> option ParamsError.
Variable ErrPerm : error.
Variable AuthOwner : string -> bool.

Abbreviation wbody := (WatchLoggingConfig_body St Wt Res ParamsError
   WatchForEnvironConfigChanges initial_event Register MustErr
   ServerError ErrPerm AuthOwner).
Abbreviation wloop := (WatchLoggingConfig_for St Wt Res ParamsError
   WatchForEnvironConfigChanges initial_event Register MustErr
   ServerError ErrPerm AuthOwner).
Abbreviation wslot := (Slot St Wt Res ParamsError
   WatchForEnvironConfigChanges initial_event Register MustErr
   ServerError ErrPerm AuthOwner).

Implicit Types (result : list (NotifyWatchResult ParamsError)).

Lemma wbody_slot i entity st res result st' res' result' :
  wbody i entity (st, res, result) = Some (st', res', result') ->
  exists f, wslot entity f /\ result' = alter f i result.
Proof.
  unfold WatchLoggingConfig_body.
  destruct (AuthOwner (params.Tag entity)) eqn:Hauth.
  - destruct (WatchForEnvironConfigChanges st) as [watch st1] eqn:Hw.
    destruct (initial_event watch) eqn:Hok.
    + destruct (Register res watch) as [id res1] eqn:Hreg. simpl.
      intros Heq. inversion Heq; subst.
      eexists. split; [eapply Slot_registered; eassumption|].
      rewrite list_alter_alter_eq. reflexivity.
    + destruct (MustErr watch) as [e|] eqn:He; simpl; [|discriminate].
      intros Heq. inversion Heq; subst.
      eexists. split; [eapply Slot_failed; eassumption | reflexivity].
  - simpl. intros Heq. inversion Heq; subst.
    eexists. split; [apply Slot_refused; assumption | reflexivity].
Qed.

(** The [for] writes the slot of every entity, and only that. *)
Lemma wloop_slots entities :
  forall i st res result st' res' result',
    wloop i entities (st, res, result) = Some (st', res', result') ->
    length result' = length result /\
    (forall j, j < i -> result' !! j = result !! j) /\
    (forall k entity,
        entities !! k = Some entity ->
        exists f,
          wslot entity f /\
          result' !! (i + k) = f <$> result !! (i + k)).
Proof.
  induction entities as [|entity rest IH];
    intros i st res result st' res' result' Hrun.
  - simpl in Hrun. inversion Hrun; subst.
    repeat split; auto. intros k entity Hk. discriminate.
  - cbn [WatchLoggingConfig_for] in Hrun.
    destruct (wbody i entity (st, res, result)) as [[[st1 res1] result1]|]
      eqn:Hbody; [|discriminate].
    cbn [mbind option_bind] in Hrun.
    apply wbody_slot in Hbody as (f & Hslot & ->).
    apply IH in Hrun as (Hlen & Hlow & Hslots).
    rewrite length_alter in Hlen. repeat split; [exact Hlen| |].
    + intros j Hj. rewrite Hlow by lia.
      apply list_lookup_alter_ne. lia.
    + intros [|k] entity' Hk.
      * simpl in Hk. inversion Hk; subst entity'. exists f.
        split; [exact Hslot|].
        rewrite Nat.add_0_r, Hlow by lia.
        apply list_lookup_alter_eq.
      * simpl in Hk. destruct (Hslots k entity' Hk) as (f' & Hf' & Hres).
        exists f'. split; [exact Hf'|].
        replace (i + S k) with (S i + k) by lia. rewrite Hres.
        rewrite list_lookup_alter_ne by lia. reflexivity.
Qed.

(** X15. When [WatchLoggingConfig] returns, it returns one result for
    every entity of the argument, and the result of an entity that the
    authorizer does not accept is no watcher id and the permission
    error. *)
Theorem WatchLoggingConfig_refuses_others st res arg st' res' result :
  WatchLoggingConfig St Wt Res ParamsError WatchForEnvironConfigChanges
                     initial_event Register MustErr ServerError ErrPerm
                     AuthOwner st res arg
  = Some (st', res', result) ->
  length result = length arg /\
  forall i entity,
    arg !! i = Some entity ->
    AuthOwner (params.Tag entity) = false ->
    result !! i
    = Some (mkNotifyWatchResult EmptyString (ServerError (Some ErrPerm))).
Proof.
  unfold WatchLoggingConfig. intros Hrun.
  apply wloop_slots in Hrun as (Hlen & _ & Hslots).
  rewrite length_replicate in Hlen. split; [exact Hlen|].
  intros i entity Hi Hauth.
  destruct (Hslots i entity Hi) as (f & Hf & Hres).
  simpl in Hres. rewrite Hres.
  rewrite lookup_replicate_2 by (eapply lookup_lt_Some; exact Hi).
  inversion Hf; subst; try congruence. reflexivity.
Qed.


(** X17. When the authorizer accepts none of the entities, the call
    returns, starts no watcher and registers nothing: the state and the
    resources are as they were. *)
Theorem WatchLoggingConfig_nobody st res arg :
  (forall entity, In entity arg -> AuthOwner (params.Tag entity) = false) ->
  exists result,
    WatchLoggingConfig St Wt Res ParamsError WatchForEnvironConfigChanges
                       initial_event Register MustErr ServerError ErrPerm
                       AuthOwner st res arg
    = Some (st, res, result).
Proof.
  unfold WatchLoggingConfig. generalize 0.
  generalize (replicate (length arg)
                (@mkNotifyWatchResult ParamsError EmptyString None)).
  induction arg as [|entity rest IH]; intros result i Hno.
  - exists result. reflexivity.
  - cbn [WatchLoggingConfig_for]. unfold WatchLoggingConfig_body.
    rewrite (Hno entity) by (left; reflexivity). simpl.
    apply IH. intros e He. apply Hno. right. exact He.
Qed.

(** X18. A watcher that does not deliver its initial event is not
    registered: when no watcher delivers it, the resources are as they
    were and no result has a watcher id. *)
Theorem WatchLoggingConfig_nothing_registered st res arg st' res' result :
  (forall watch, initial_event watch = false) ->
  WatchLoggingConfig St Wt Res ParamsError WatchForEnvironConfigChanges
                     initial_event Register MustErr ServerError ErrPerm
                     AuthOwner st res arg
  = Some (st', res', result) ->
  res' = res /\
  forall r, In r result -> NotifyWatcherId r = EmptyString.
Proof.
  intros Hnever. unfold WatchLoggingConfig.
  assert (Hzero : forall r,
             In r (replicate (length arg)
                     (@mkNotifyWatchResult ParamsError EmptyString None)) ->
             NotifyWatcherId r = EmptyString).
  { intros r Hr. apply list_elem_of_In, elem_of_replicate_inv in Hr.
    subst r. reflexivity. }
  revert Hzero. generalize 0.
  generalize (replicate (length arg)
                (@mkNotifyWatchResult ParamsError EmptyString None)).
  revert st.
  induction arg as [|entity rest IH]; intros st result0 i Hzero Hrun.
  - simpl in Hrun. inversion Hrun; subst. auto.
  - cbn [WatchLoggingConfig_for] in Hrun.
    unfold WatchLoggingConfig_body in Hrun.
    assert (Hkeep : forall e r,
               In r (alter (set_Error ParamsError e) i result0) ->
               NotifyWatcherId r = EmptyString).
    { intros e r Hr. apply list_elem_of_In in Hr.
      apply list_elem_of_lookup in Hr as (k & Hk).
      destruct (decide (k = i)) as [->|Hne].
      - rewrite list_lookup_alter_eq in Hk.
        destruct (result0 !! i) as [r0|] eqn:Hr0; [|discriminate].
        simpl in Hk. inversion Hk; subst r. simpl.
        apply Hzero. apply list_elem_of_In.
        eapply list_elem_of_lookup_2. exact Hr0.
      - rewrite list_lookup_alter_ne in Hk by congruence.
        apply Hzero. apply list_elem_of_In.
        eapply list_elem_of_lookup_2. exact Hk. }
    destruct (AuthOwner (params.Tag entity)).
    + destruct (WatchForEnvironConfigChanges st) as [watch st1].
      rewrite Hnever in Hrun.
      destruct (MustErr watch) as [e|]; [|discriminate].
      simpl in Hrun. eapply IH; [|exact Hrun]. apply Hkeep.
    + simpl in Hrun. eapply IH; [|exact Hrun]. apply Hkeep.
Qed.

End WatchFacts.

End logger_watch_facts.

(** * More runs of the test suite, and more calls of the API *)

Module more_scenarios.

Import worker worker_test worker_words fixtures worker_facts worker_more.

(** [TestChangesTriggerHandler], before the worker is stopped. *)
Lemma Wait_blocks_until_Kill_witness :
  let g := run [Run; Notify; Notify; SeeDying; Notify; Run]
               (NewNotifyWorker actor) in
  Wait g = None /\ ~ In ActTearDown (calls g).
Proof.
  apply (@Wait_blocks_until_Kill TestWatcher ActionsHandler
           TestWatcher_NotifyWatcher ActionsHandler_WatchHandler
           actor (mkTestWatcher None) (record "setup" actor)
           [Run; Notify; Notify; SeeDying; Notify; Run] eq_refl).
  - intros n. apply scenarios.actor_verdict.
  - reflexivity.
Defined.

(** [TestKill], and then more notifications and another [Kill]. *)
Lemma nothing_after_Wait_witness :
  calls (run ([Run; CallKill; SeeDying; Run; Run; Run; Run]
              ++ [Notify; CallKill; Run; SeeDying])
             (NewNotifyWorker actor))
  = calls (run [Run; CallKill; SeeDying; Run; Run; Run; Run]
               (NewNotifyWorker actor)) /\
  handler (nw (run ([Run; CallKill; SeeDying; Run; Run; Run; Run]
                    ++ [Notify; CallKill; Run; SeeDying])
                   (NewNotifyWorker actor)))
  = handler (nw (run [Run; CallKill; SeeDying; Run; Run; Run; Run]
                     (NewNotifyWorker actor))).
Proof.
  exact (@nothing_after_Wait TestWatcher ActionsHandler
           TestWatcher_NotifyWatcher ActionsHandler_WatchHandler
           actor [Run; CallKill; SeeDying; Run; Run; Run; Run]
           [Notify; CallKill; Run; SeeDying] None eq_refl).
Defined.

(** [TestSetUpFailureStopsWithTearDown], with a watcher. *)
Lemma SetUp_first_TearDown_last_witness :
  exists middle,
    calls (run [Run; Run; Run; Run] (NewNotifyWorker setup_fails))
    = ActSetUp :: middle ++ [ActTearDown] /\
    ~ In ActSetUp middle /\ ~ In ActTearDown middle.
Proof.
  exact (@SetUp_first_TearDown_last TestWatcher ActionsHandler
           TestWatcher_NotifyWatcher ActionsHandler_WatchHandler
           setup_fails [Run; Run; Run; Run] (Some special) eq_refl).
Defined.

(** A handler whose [Handle] returns [tomb.ErrDying]: [Wait] returns
    nil. *)
Lemma Wait_never_returns_sentinel_witness :
  Wait (run [Run; Notify; Run; Run; Run; Run]
            (NewNotifyWorker handle_says_dying)) = Some None /\
  ((None : option error) = None \/ genuine None = true).
Proof.
  split; [reflexivity|].
  exact (@Wait_never_returns_sentinel TestWatcher Downcount
           TestWatcher_NotifyWatcher Downcount_WatchHandler
           handle_says_dying [Run; Notify; Run; Run; Run; Run] None
           eq_refl).
Defined.

(** [TestHandleErrorStopsWorkerAndWatcher]: after the failure of
    [Handle], two more notifications are not handled. *)
Lemma no_Handle_after_return_witness :
  exists extra,
    calls (run [Notify; Run; Notify; Run; Run; Run]
               (run [Run; Notify] (NewNotifyWorker both_fail)))
    = calls (run [Run; Notify] (NewNotifyWorker both_fail)) ++ extra /\
    Forall (fun a => a = ActWatcherStop \/ a = ActTearDown) extra.
Proof.
  exact (@no_Handle_after_return TestWatcher ActionsHandler
           TestWatcher_NotifyWatcher ActionsHandler_WatchHandler
           [Notify; Run; Notify; Run; Run; Run]
           (run [Run; Notify] (NewNotifyWorker both_fail))
           ([ActSetUp; ActHandle; ActWatcherStop; ActTearDown],
            record "teardown" (record "handler" (record "setup" both_fail)),
            Some stopping)
           eq_refl).
Defined.


(** [TestSetUpFailureStopsWithTearDown]. *)
Lemma setup_error_without_watcher_witness :
  let g := run [Run; Run; CallKill; Run; Run]
               (NewNotifyWorker setup_fails_alone) in
  Wait g = Some (Some special) /\
  calls g = [ActSetUp; ActTearDown].
Proof.
  apply (proj1 (@setup_error_without_watcher TestWatcher ActionsHandler
                  TestWatcher_NotifyWatcher ActionsHandler_WatchHandler
                  setup_fails_alone special
                  (record "setup" setup_fails_alone) eq_refl eq_refl)).
  repeat constructor.
Defined.


End more_scenarios.

Module logger_more_scenarios.

Import logger logger_more logger_watch logger_watch_facts fixtures.

(** "machine-1" is not the owner. *)
Lemma LoggingConfig_refuses_others_witness :
  length [params.mkStringResult (Some permission_denied) EmptyString;
          params.mkStringResult None EmptyString] = length machines /\
  [params.mkStringResult (Some permission_denied) EmptyString;
   params.mkStringResult None EmptyString] !! 0
  = Some (params.mkStringResult (server_error (Some permission_denied))
                                EmptyString).
Proof.
  destruct (LoggingConfig_refuses_others logging_of server_error
              permission_denied api_fetched machines
              [params.mkStringResult (Some permission_denied) EmptyString;
               params.mkStringResult None EmptyString]
              eq_refl) as [Hlen Hres].
  split; [exact Hlen|].
  exact (Hres 0 (params.mkEntity "machine-1") eq_refl eq_refl).
Defined.

(** The owner asked twice, in two calls. *)
Lemma LoggingConfig_result_by_entity_witness :
  [params.mkStringResult (Some permission_denied) EmptyString;
   params.mkStringResult None "<root>=DEBUG"%string] !! 1
  = [params.mkStringResult (@None error) "<root>=DEBUG"%string] !! 0.
Proof.
  exact (LoggingConfig_result_by_entity logging_of server_error
           permission_denied api_failed machines
           [params.mkEntity "machine-0"]
           [params.mkStringResult (Some permission_denied) EmptyString;
            params.mkStringResult None "<root>=DEBUG"%string]
           [params.mkStringResult None "<root>=DEBUG"%string]
           1 0 (params.mkEntity "machine-0")
           eq_refl eq_refl eq_refl eq_refl).
Defined.

(** The owner asks twice and "machine-1" once: the first watcher
    delivers its initial event, the second does not. *)
Lemma WatchLoggingConfig_refuses_others_witness :
  length [mkNotifyWatchResult "1"%string (@None error);
          mkNotifyWatchResult EmptyString (Some permission_denied);
          mkNotifyWatchResult EmptyString (Some (Errorf "watcher died"))]
  = length agents /\
  [mkNotifyWatchResult "1"%string (@None error);
   mkNotifyWatchResult EmptyString (Some permission_denied);
   mkNotifyWatchResult EmptyString (Some (Errorf "watcher died"))] !! 1
  = Some (mkNotifyWatchResult EmptyString
                              (server_error (Some permission_denied))).
Proof.
  destruct (WatchLoggingConfig_refuses_others start_watcher delivers
              register died_with server_error permission_denied owner
              0 [] agents 2 [0]
              [mkNotifyWatchResult "1"%string None;
               mkNotifyWatchResult EmptyString (Some permission_denied);
               mkNotifyWatchResult EmptyString
                                   (Some (Errorf "watcher died"))]
              eq_refl) as [Hlen Hres].
  split; [exact Hlen|].
  exact (Hres 1 (params.mkEntity "machine-1") eq_refl eq_refl).
Defined.


(** Only "machine-1" asks. *)
Lemma WatchLoggingConfig_nobody_witness :
  exists result,
    WatchLoggingConfig nat nat (list nat) error start_watcher delivers
                       register died_with server_error permission_denied
                       owner 5 [3] [params.mkEntity "machine-1"]
    = Some (5, [3], result).
Proof.
  apply (WatchLoggingConfig_nobody start_watcher delivers register
           died_with server_error permission_denied owner
           5 [3] [params.mkEntity "machine-1"]).
  intros entity [<- | []]. reflexivity.
Defined.

(** No watcher delivers its initial event. *)
Lemma WatchLoggingConfig_nothing_registered_witness :
  ([3] : list nat) = [3] /\
  forall r,
    In r [mkNotifyWatchResult EmptyString (Some (Errorf "watcher died"));
          mkNotifyWatchResult EmptyString (Some permission_denied);
          mkNotifyWatchResult EmptyString (Some (Errorf "watcher died"))] ->
    NotifyWatcherId r = EmptyString.
Proof.
  exact (WatchLoggingConfig_nothing_registered start_watcher
           (fun _ => false) register died_with server_error
           permission_denied owner 5 [3] agents 7 [3]
           [mkNotifyWatchResult EmptyString (Some (Errorf "watcher died"));
            mkNotifyWatchResult EmptyString (Some permission_denied);
            mkNotifyWatchResult EmptyString (Some (Errorf "watcher died"))]
           (fun _ => eq_refl) eq_refl).
Defined.

End logger_more_scenarios.
